(** * Multi-Agent-Surveillance: the simulation core of [simulation/world.py]

    A shallow embedding of [World] and of the per-tick protocol run by
    [World.tick], with the properties of the capture check, the target
    check, collision resolution, vision, noise and messaging.

    Conventions of the embedding:
    - Python floats are exact rationals ([Q]).  A comparison of a vector's
      length with a bound is decided exactly, on the squares
      ([vmath.length_lt], [vmath.length_le]); where the length itself is
      needed, to resize a vector, [math.sqrt] is the square root rounded
      down to a relative precision of [10 ^ -18] ([Qsqrt]).
    - The agent dictionary is an association list in insertion order, keyed
      by the [ID] field of its entries.
    - Objects mutated in place become explicit state; an exception leaves
      the state reached so far ([Raises e s]).
    - The overridable notifications ([on_noise], [on_captured],
      [on_reached_target]) are recorded, oldest first, in the [calls] log of
      the agent that receives them. *)

From Stdlib Require Import ZArith QArith Qround Qabs Lqa Lia List Bool String.
Import ListNotations.
Open Scope Q_scope.

(** ** Numbers *)

Definition Qltb (a b : Q) : bool := negb (Qle_bool b a).

(** [math.sqrt], rounded down, to a relative precision of [10 ^ -18]; the
    root of the square of a rational is exact. *)
Definition sqrt_scale : Z := 1000000000000000000.

Definition Qsqrt (q : Q) : Q :=
  Z.sqrt (Qnum q * Zpos (Qden q) * (sqrt_scale * sqrt_scale))
  # (Qden q * Z.to_pos sqrt_scale).

(** [int(math.floor(v))] *)
Definition floor (v : Q) : Z := Qfloor v.

(** Python's [a % 360] on floats: the result carries the sign of the divisor. *)
Definition mod360 (a : Q) : Q := a - 360 * inject_Z (Qfloor (a / 360)).

(** ** [vectormath.Vector2] *)

Inductive Exn : Set := KeyError | ZeroDivisionError.

Module vmath.

Record Vector2 : Set := mk { x : Q; y : Q }.

Definition add (u v : Vector2) : Vector2 := mk (x u + x v) (y u + y v).
Definition sub (u v : Vector2) : Vector2 := mk (x u - x v) (y u - y v).
Definition scale (k : Q) (v : Vector2) : Vector2 := mk (k * x v) (k * y v).

(** [v.x ** 2 + v.y ** 2], the square of the Euclidean length. *)
Definition length_squared (v : Vector2) : Q := x v * x v + y v * y v.

Definition length (v : Vector2) : Q := Qsqrt (length_squared v).

(** [v.length < r] and [v.length <= r].  The length is not negative, so
    it is below [r] exactly when [r] is positive and the squared length is
    below the square of [r]. *)
Definition length_lt (v : Vector2) (r : Q) : bool :=
  Qltb 0 r && Qltb (length_squared v) (r * r).

Definition length_le (v : Vector2) (r : Q) : bool :=
  Qle_bool 0 r && Qle_bool (length_squared v) (r * r).

(** [v.as_length(l)]: a copy of [v] scaled by [l / v.length]; a negative
    [l] reverses the vector.  A vector of length zero cannot be resized to
    a nonzero length. *)
Definition as_length (v : Vector2) (l : Q) : Exn + Vector2 :=
  if Qeq_bool (length_squared v) 0
  then (if Qeq_bool l 0 then inr v else inl ZeroDivisionError)
  else inr (scale (l / length v) v).

End vmath.

Definition Vector2 : Set := vmath.Vector2.
(** [simulation.util.Position] is used as a [Vector2] throughout. *)
Definition Position : Set := vmath.Vector2.

(** ** Data model *)

Definition AgentID : Set := Z.
Bind Scope Z_scope with AgentID.

(** [class Message] *)
Module Message.
Record t : Set := mk {
  source  : AgentID;
  target  : AgentID;
  message : string
}.
End Message.

(** [class NoiseEvent] *)
Module NoiseEvent.
Record t : Set := mk {
  time     : Z;
  location : Position;
  source   : option AgentID;
  radius   : Q
}.

(** [NoiseEvent(location)]: [time = 0], [source = None], [radius = 5/2]. *)
Definition init (loc : Position) : t := mk 0 loc None (5 / 2).

Definition set_time (n : Z) (e : t) : t := mk n (location e) (source e) (radius e).
End NoiseEvent.

(** Notifications an agent receives from the world. *)
Inductive Callback : Set :=
| on_noise (events : list NoiseEvent.t)
| on_captured
| on_reached_target.

(** State of an [IntruderAgent] that the world's checks read and write. *)
Record IntruderState : Set := mkIntruder {
  target               : Position;
  is_captured          : bool;
  reached_target       : bool;
  ticks_in_target      : Q;
  ticks_since_target   : Q;
  times_visited_target : Q
}.

Inductive AgentClass : Set :=
| GuardAgent
| IntruderAgent (s : IntruderState).

(** [class Agent]: the attributes [World] touches. *)
Record Agent : Set := mkAgent {
  ID                : AgentID;
  class             : AgentClass;
  location          : Position;
  heading           : Q;
  view_range        : Q;
  view_angle        : Q;
  _width            : Q;
  _has_collided     : bool;
  _message_queue_in : list Message.t;
  calls             : list Callback
}.

Definition is_guard (a : Agent) : bool :=
  match class a with GuardAgent => true | IntruderAgent _ => false end.

Definition is_intruder (a : Agent) : bool :=
  match class a with GuardAgent => false | IntruderAgent _ => true end.

(** The [Map] interface the world consumes. *)
Record Map : Type := mkMap {
  width   : Z;
  height  : Z;
  size    : Z * Z;
  is_wall : Z -> Z -> bool
}.

Record World : Type := mkWorld {
  map        : Map;
  agents     : list Agent;
  noises     : list NoiseEvent.t;
  old_noises : list NoiseEvent.t;
  time_ticks : Z
}.

Definition TICK_RATE : Q := 20.
Definition TIME_PER_TICK : Q := 1 / TICK_RATE.

(** Field updates. *)
Definition set_location (p : Position) (a : Agent) : Agent :=
  mkAgent (ID a) (class a) p (heading a) (view_range a) (view_angle a)
          (_width a) (_has_collided a) (_message_queue_in a) (calls a).

Definition set_has_collided (b : bool) (a : Agent) : Agent :=
  mkAgent (ID a) (class a) (location a) (heading a) (view_range a) (view_angle a)
          (_width a) b (_message_queue_in a) (calls a).

Definition set_class (c : AgentClass) (a : Agent) : Agent :=
  mkAgent (ID a) c (location a) (heading a) (view_range a) (view_angle a)
          (_width a) (_has_collided a) (_message_queue_in a) (calls a).

Definition enqueue (m : Message.t) (a : Agent) : Agent :=
  mkAgent (ID a) (class a) (location a) (heading a) (view_range a) (view_angle a)
          (_width a) (_has_collided a) (_message_queue_in a ++ [m]) (calls a).

Definition notify (c : Callback) (a : Agent) : Agent :=
  mkAgent (ID a) (class a) (location a) (heading a) (view_range a) (view_angle a)
          (_width a) (_has_collided a) (_message_queue_in a) (calls a ++ [c]).

Definition set_agents (l : list Agent) (w : World) : World :=
  mkWorld (map w) l (noises w) (old_noises w) (time_ticks w).

Definition set_noises (l : list NoiseEvent.t) (w : World) : World :=
  mkWorld (map w) (agents w) l (old_noises w) (time_ticks w).

(** ** Results of stateful, fallible code *)

Inductive Outcome (S A : Type) : Type :=
| Returns (a : A) (s : S)
| Raises (e : Exn) (s : S).
Arguments Returns {S A} a s.
Arguments Raises {S A} e s.

Definition state_of {S A} (o : Outcome S A) : S :=
  match o with Returns _ s => s | Raises _ s => s end.

Definition bind {S A B} (o : Outcome S A) (k : A -> S -> Outcome S B) : Outcome S B :=
  match o with
  | Returns a s => k a s
  | Raises e s => Raises e s
  end.

(** [for a in l: body(a)], each element mutated in place; a raise keeps the
    elements already processed and leaves the rest untouched. *)
Fixpoint for_each {T} (body : T -> Outcome T unit) (l : list T) : Outcome (list T) unit :=
  match l with
  | [] => Returns tt []
  | a :: rest =>
      match body a with
      | Raises e a' => Raises e (a' :: rest)
      | Returns _ a' =>
          match for_each body rest with
          | Returns _ rest' => Returns tt (a' :: rest')
          | Raises e rest' => Raises e (a' :: rest')
          end
      end
  end.

(** ** [World]: properties and small operations *)

Definition guards (w : World) : list Agent := filter is_guard (agents w).
Definition intruders (w : World) : list Agent := filter is_intruder (agents w).

(** [add_noise]: stamp the event with the current tick and append it. *)
Definition add_noise (noise : NoiseEvent.t) (w : World) : World :=
  set_noises (noises w ++ [NoiseEvent.set_time (time_ticks w) noise]) w.

(** [self.agents[key]] and the in-place update of the entry found. *)
Fixpoint lookup (key : AgentID) (l : list Agent) : option Agent :=
  match l with
  | [] => None
  | a :: rest => if Z.eqb (ID a) key then Some a else lookup key rest
  end.

Fixpoint update (key : AgentID) (f : Agent -> Agent) (l : list Agent) : list Agent :=
  match l with
  | [] => []
  | a :: rest => if Z.eqb (ID a) key then f a :: rest else a :: update key f rest
  end.

(** [transmit_message]: the dictionary lookup raises [KeyError] on a missing
    key, before anything is appended. *)
Definition transmit_message (message : Message.t) (w : World) : Outcome World unit :=
  match lookup (Message.target message) (agents w) with
  | None => Raises KeyError w
  | Some _ =>
      Returns tt (set_agents (update (Message.target message) (enqueue message) (agents w)) w)
  end.

(** ** Collision resolution ([_collision_check]) *)

Definition collision_point (m : Map) (px py : Q) : option Vector2 :=
  let cx := floor px in
  let cy := floor py in
  if is_wall m cx cy
  then Some (vmath.add (vmath.mk (inject_Z cx) (inject_Z cy)) (vmath.mk 0.5 0.5))
  else None.

(** The closure reads the agent's current location and its width. *)
Definition circle_collision (m : Map) (agent : Agent) (width : Q) (px py : Q) (r : Q)
  : Exn + option Vector2 :=
  let cx := floor px in
  let cy := floor py in
  if is_wall m cx cy then
    let center := vmath.add (vmath.mk (inject_Z cx) (inject_Z cy)) (vmath.mk 0.5 0.5) in
    let d := vmath.sub (location agent) center in
    if vmath.length_lt d (r + width / 2) then
      match vmath.as_length d (r + width / 2) with
      | inl e => inl e
      | inr v => inr (Some (vmath.add center v))
      end
    else inr None
  else inr None.

(** "do a quick bounds check first so they stay on the map" *)
Definition bounds_check (m : Map) (a : Agent) : Agent :=
  let l := location a in
  let x1 := if Qltb (vmath.x l) 0 then 0 else vmath.x l in
  let y1 := if Qltb (vmath.y l) 0 then 0 else vmath.y l in
  let x2 := if Qle_bool (inject_Z (width m)) x1 then inject_Z (width m) - 0.01 else x1 in
  let y2 := if Qle_bool (inject_Z (height m)) y1 then inject_Z (height m) - 0.01 else y1 in
  set_location (vmath.mk x2 y2) a.

(** The four edge probes, the accumulated push and its application. *)
Definition edge_push (m : Map) (a : Agent) : Agent :=
  let width := _width a in
  let x := vmath.x (location a) in
  let y := vmath.y (location a) in
  let left   := collision_point m (x - width / 2) y in
  let right  := collision_point m (x + width / 2) y in
  let bottom := collision_point m x (y - width / 2) in
  let top    := collision_point m x (y + width / 2) in
  let px0 := 0 in
  let px1 := match left with
             | Some c => px0 + (vmath.x c + (0.5 + width / 2) - x)
             | None => px0 end in
  let px2 := match right with
             | Some c => px1 + (vmath.x c - (0.5 + width / 2) - x)
             | None => px1 end in
  let py0 := 0 in
  let py1 := match bottom with
             | Some c => py0 + (vmath.y c + (0.5 + width / 2) - y)
             | None => py0 end in
  let py2 := match top with
             | Some c => py1 + (vmath.y c - (0.5 + width / 2) - y)
             | None => py1 end in
  let hit := match left, right, bottom, top with
             | None, None, None, None => false
             | _, _, _, _ => true
             end in
  set_has_collided (_has_collided a || hit)
    (set_location (vmath.add (location a) (vmath.mk px2 py2)) a).

(** One corner probe: snap onto the circle around the wall cell's centre. *)
Definition corner_snap (m : Map) (width : Q) (px py : Q) (a : Agent) : Outcome Agent unit :=
  match circle_collision m a width px py 0.5 with
  | inl e => Raises e a
  | inr None => Returns tt a
  | inr (Some c) =>
      Returns tt (set_has_collided (_has_collided a || true)
                    (set_location (vmath.mk (vmath.x c) (vmath.y c)) a))
  end.

(** The loop body of [_collision_check] for one agent. *)
Definition resolve_collision (m : Map) (a : Agent) : Outcome Agent unit :=
  let a0 := bounds_check m a in
  let width := _width a0 in
  let x := vmath.x (location a0) in
  let y := vmath.y (location a0) in
  let a1 := edge_push m a0 in
  bind (corner_snap m width (x - width / 2) (y - width / 2) a1) (fun _ a2 =>
  bind (corner_snap m width (x - width / 2) (y + width / 2) a2) (fun _ a3 =>
  bind (corner_snap m width (x + width / 2) (y - width / 2) a3) (fun _ a4 =>
       corner_snap m width (x + width / 2) (y + width / 2) a4))).

Definition _collision_check (w : World) : Outcome World unit :=
  match for_each (resolve_collision (map w)) (agents w) with
  | Returns _ l => Returns tt (set_agents l w)
  | Raises e l => Raises e (set_agents l w)
  end.

(** ** Win conditions *)

Definition set_is_captured (b : bool) (s : IntruderState) : IntruderState :=
  mkIntruder (target s) b (reached_target s) (ticks_in_target s)
             (ticks_since_target s) (times_visited_target s).

Definition set_reached_target (b : bool) (s : IntruderState) : IntruderState :=
  mkIntruder (target s) (is_captured s) b (ticks_in_target s)
             (ticks_since_target s) (times_visited_target s).

Definition set_ticks_in_target (v : Q) (s : IntruderState) : IntruderState :=
  mkIntruder (target s) (is_captured s) (reached_target s) v
             (ticks_since_target s) (times_visited_target s).

Definition set_ticks_since_target (v : Q) (s : IntruderState) : IntruderState :=
  mkIntruder (target s) (is_captured s) (reached_target s) (ticks_in_target s)
             v (times_visited_target s).

Definition set_times_visited_target (v : Q) (s : IntruderState) : IntruderState :=
  mkIntruder (target s) (is_captured s) (reached_target s) (ticks_in_target s)
             (ticks_since_target s) v.

(** [all(f(intruder) for ID, intruder in self.intruders.items())] *)
Definition all_intruders (f : IntruderState -> bool) (l : list Agent) : bool :=
  forallb (fun a => match class a with
                    | IntruderAgent s => f s
                    | GuardAgent => true
                    end) (filter is_intruder l).

(** The body of the inner loop of [_capture_check]: one (intruder, guard) pair. *)
Definition capture_pair (intruder guard : Agent) : Agent :=
  match class intruder with
  | GuardAgent => intruder
  | IntruderAgent s =>
      if vmath.length_lt (vmath.sub (location intruder) (location guard)) 0.5
      then notify on_captured (set_class (IntruderAgent (set_is_captured true s)) intruder)
      else intruder
  end.

Definition _capture_check (w : World) : World * bool :=
  let gs := guards w in
  let l := List.map (fun a => if is_intruder a then fold_left capture_pair gs a else a)
                    (agents w) in
  (set_agents l w, all_intruders is_captured l).

(** The counters of one intruder, given whether it is inside the target
    radius on this tick. *)
Definition target_counters (inside : bool) (s : IntruderState) : IntruderState :=
  if inside then
    let s1 :=
      if Qeq_bool (ticks_in_target s) 0 then
        let s0 :=
          if Qle_bool 3 (ticks_since_target s * TIME_PER_TICK)
             || Qeq_bool (times_visited_target s) 0
          then set_times_visited_target (times_visited_target s + 1) s
          else s in
        set_ticks_since_target 0 s0
      else s in
    set_ticks_in_target (ticks_in_target s1 + 1) s1
  else
    if Qltb 0 (ticks_in_target s) then
      set_ticks_in_target 0 (set_ticks_since_target (ticks_since_target s + 1) s)
    else if Qltb 0 (ticks_since_target s) then
      set_ticks_since_target (ticks_since_target s + 1) s
    else s.

(** The loop body of [_target_check] for one intruder. *)
Definition target_update (a : Agent) : Agent :=
  match class a with
  | GuardAgent => a
  | IntruderAgent s =>
      let inside := vmath.length_lt (vmath.sub (location a) (target s)) 0.5 in
      let s1 := target_counters inside s in
      if Qle_bool 3 (ticks_in_target s1 * TIME_PER_TICK) then
        notify on_reached_target (set_class (IntruderAgent (set_reached_target true s1)) a)
      else if Qle_bool 2 (times_visited_target s1) then
        set_class (IntruderAgent (set_reached_target true s1)) a
      else set_class (IntruderAgent s1) a
  end.

Definition _target_check (w : World) : World * bool :=
  let l := List.map target_update (agents w) in
  (set_agents l w, all_intruders reached_target l).

(** ** Noise *)

(** The values drawn from [random] by one call of [emit_random_noise]:
    [random.uniform(0, 1)] and the two [random.randint] results. *)
Record Draws : Set := mkDraws {
  uniform   : Q;
  randint_x : Z;
  randint_y : Z
}.

Definition chance_to_emit (m : Map) : Q :=
  let event_rate := 10 in
  let random_events_per_second :=
    (event_rate / 60) * (inject_Z (fst (size m)) * inject_Z (snd (size m)) / 25) in
  random_events_per_second * TIME_PER_TICK.

Definition emit_random_noise (r : Draws) (w : World) : World :=
  if Qltb (uniform r) (chance_to_emit (map w)) then
    let noise_event :=
      NoiseEvent.init (vmath.mk (inject_Z (randint_x r)) (inject_Z (randint_y r))) in
    add_noise noise_event w
  else w.

(** "reset noise list": [old_noises.extend(noises); noises = []] *)
Definition reset_noise_list (w : World) : World :=
  mkWorld (map w) (agents w) [] (old_noises w ++ noises w) (time_ticks w).

(** [for ID, agent in self.agents.items(): agent.on_noise(self.noises)] *)
Definition deliver_noises (w : World) : World :=
  set_agents (List.map (notify (on_noise (noises w))) (agents w)) w.

(** ** The tick *)

(** [simulation.vision.AgentView(other_agent)] *)
Record AgentView : Set := mkAgentView { viewed : Agent }.

Fixpoint replace_nth (i : nat) (a : Agent) (l : list Agent) : list Agent :=
  match l, i with
  | [], _ => []
  | _ :: rest, O => a :: rest
  | b :: rest, S j => b :: replace_nth j a rest
  end.

Fixpoint transmit_all (msgs : list Message.t) (w : World) : Outcome World unit :=
  match msgs with
  | [] => Returns tt w
  | m :: rest => bind (transmit_message m w) (fun _ w' => transmit_all rest w')
  end.

Section Tick.

(** [math.atan2] and [math.degrees]. *)
Variable atan2 : Q -> Q -> Q.
Variable degrees : Q -> Q.

(** [Agent.tick(seen_agents)], the behaviour side of an agent: from the
    world it is attached to, itself and the agents it sees, its state after
    the callbacks and the messages it handed to [send_message]. *)
Variable agent_tick : World -> Agent -> list AgentView -> Agent * list Message.t.

Definition angle_diff (agent other_agent : Agent) : Q :=
  let d := vmath.sub (location other_agent) (location agent) in
  Qabs (mod360 (- degrees (atan2 (vmath.y d) (vmath.x d)) + 90 - heading agent + 180) - 180).

(** The test that puts [other_agent] on the [visible_agents] list. *)
Definition sees (agent other_agent : Agent) : bool :=
  let d := vmath.sub (location other_agent) (location agent) in
  (vmath.length_le d (view_range agent)
   && Qle_bool (angle_diff agent other_agent) (view_angle agent))
  || vmath.length_le d 1.5.

Definition visible_agents (l : list Agent) (agent : Agent) : list AgentView :=
  List.map mkAgentView
    (filter (fun other_agent =>
               negb (Z.eqb (ID other_agent) (ID agent)) && sees agent other_agent) l).


(** One round of the loop over the agents: the entry at position [i]. *)
Definition run_agent (i : nat) (w : World) : Outcome World unit :=
  match nth_error (agents w) i with
  | None => Returns tt w
  | Some agent =>
      let visible := visible_agents (agents w) agent in
      let '(agent', sent) := agent_tick w agent visible in
      transmit_all sent (set_agents (replace_nth i agent' (agents w)) w)
  end.

Fixpoint run_agents (rounds : list nat) (w : World) : Outcome World unit :=
  match rounds with
  | [] => Returns tt w
  | i :: rest => bind (run_agent i w) (fun _ w' => run_agents rest w')
  end.

(** The start of [tick]: the noise lists, then the loop over the agents. *)
Definition agents_phase (r : Draws) (w : World) : Outcome World unit :=
  let w1 := reset_noise_list w in
  let w2 := emit_random_noise r w1 in
  run_agents (seq 0 (List.length (agents w2))) w2.

(** Everything [tick] does before the two checks. *)
Definition before_checks (r : Draws) (w : World) : Outcome World unit :=
  bind (agents_phase r w) (fun _ w3 =>
  bind (_collision_check w3) (fun _ w4 =>
  Returns tt (deliver_noises w4))).

(** The checks and the return value, with the lines printed. *)
Definition checks (w : World) : Outcome World (list string * bool) :=
  let '(w1, all_captured) := _capture_check w in
  if all_captured then Returns (["The guards won!"%string], true) w1
  else
    let '(w2, all_reached_target) := _target_check w1 in
    if all_reached_target then Returns (["The intruders won!"%string], true) w2
    else
      let w3 := mkWorld (map w2) (agents w2) (noises w2) (old_noises w2)
                        (time_ticks w2 + 1) in
      if all_captured then Returns ([], true) w3
      else Returns ([], false) w3.

Definition tick (r : Draws) (w : World) : Outcome World (list string * bool) :=
  bind (before_checks r w) (fun _ w' => checks w').

End Tick.

(** A behaviour that does nothing and sends nothing. *)
Definition idle (_ : World) (a : Agent) (_ : list AgentView) : Agent * list Message.t :=
  (a, []).

(** ** Predicates of the statements *)

Definition same_point (p q : Position) : Prop :=
  vmath.x p == vmath.x q /\ vmath.y p == vmath.y q.

(** Two agent states that differ at most in how their coordinates are written. *)
Definition same_agent (a b : Agent) : Prop :=
  ID a = ID b /\ class a = class b /\ same_point (location a) (location b) /\
  heading a = heading b /\ view_range a = view_range b /\ view_angle a = view_angle b /\
  _width a = _width b /\ _has_collided a = _has_collided b /\
  _message_queue_in a = _message_queue_in b /\ calls a = calls b.

(** [0 <= x < map.width] and [0 <= y < map.height] *)
Definition in_bounds (m : Map) (p : Position) : Prop :=
  (0 <= vmath.x p /\ vmath.x p < inject_Z (width m)) /\
  (0 <= vmath.y p /\ vmath.y p < inject_Z (height m)).

(** None of the four edge probes and four corner probes of [a] is in a wall cell. *)
Definition probes_clear (m : Map) (a : Agent) : bool :=
  let w := _width a in
  let x := vmath.x (location a) in
  let y := vmath.y (location a) in
  negb (is_wall m (floor (x - w / 2)) (floor y)) &&
  negb (is_wall m (floor (x + w / 2)) (floor y)) &&
  negb (is_wall m (floor x) (floor (y - w / 2))) &&
  negb (is_wall m (floor x) (floor (y + w / 2))) &&
  negb (is_wall m (floor (x - w / 2)) (floor (y - w / 2))) &&
  negb (is_wall m (floor (x - w / 2)) (floor (y + w / 2))) &&
  negb (is_wall m (floor (x + w / 2)) (floor (y - w / 2))) &&
  negb (is_wall m (floor (x + w / 2)) (floor (y + w / 2))).

(** What no operation on the agents touches: the map and the noise lists. *)
Definition frame (w w' : World) : Prop :=
  map w' = map w /\ noises w' = noises w /\ old_noises w' = old_noises w.

(** ** Example worlds *)

(** A 3 x 3 map whose only wall cell is (0, 1). *)
Definition map3 : Map :=
  mkMap 3 3 (3%Z, 3%Z) (fun cx cy => Z.eqb cx 0 && Z.eqb cy 1).

Definition guard_at (id : Z) (p : Position) (w : Q) : Agent :=
  mkAgent id GuardAgent p 0 5 45 w false [] [].

Definition intruder_at (id : Z) (p t : Position) (w : Q) : Agent :=
  mkAgent id (IntruderAgent (mkIntruder t false false 0 0 0)) p 0 5 45 w false [] [].

(** Draws with which [emit_random_noise] stays silent. *)
Definition quiet : Draws := mkDraws 1 0 0.

(** One guard in the open middle cell. *)
Definition world_clear : World :=
  mkWorld map3 [guard_at 1 (vmath.mk 1.5 1.5) 0.2] [] [] 0.

(** A small guard inside the wall cell (0, 1), right of the cell's centre,
    and a free intruder in the far corner, away from its target. *)
Definition world_embedded : World :=
  mkWorld map3
          [guard_at 1 (vmath.mk 0.7 1.5) 0.2;
           intruder_at 2 (vmath.mk 2.5 2.5) (vmath.mk 2.5 0.5) 0.2]
          [] [] 0.

(** The target bookkeeping of an agent: its three counters and the
    [reached_target] flag; [None] for a guard. *)
Definition target_state (a : Agent) : option (Q * Q * Q * bool) :=
  match class a with
  | GuardAgent => None
  | IntruderAgent s =>
      Some (ticks_in_target s, ticks_since_target s, times_visited_target s, reached_target s)
  end.

(** Stand-ins for [math.atan2] and [math.degrees] where the behaviour run
    ignores what the agent sees. *)
Definition atan2_unused : Q -> Q -> Q := fun _ _ => 0.
Definition degrees_unused : Q -> Q := fun q => q.

(** How often [on_captured] has been invoked on an agent. *)
Definition captured_notifications (a : Agent) : nat :=
  List.length (filter (fun c => match c with on_captured => true | _ => false end) (calls a)).

(** An intruder standing on its target point with a guard 0.1 away. *)
Definition world_caught : World :=
  mkWorld map3
          [intruder_at 1 (vmath.mk 1.5 1.5) (vmath.mk 1.5 1.5) 0.2;
           guard_at 2 (vmath.mk 1.6 1.5) 0.2]
          [] [] 0.

(** One intruder, away from its target, with two guards within 0.5 of it. *)
Definition world_two_guards : World :=
  mkWorld map3
          [intruder_at 1 (vmath.mk 1.5 1.5) (vmath.mk 2.5 0.5) 0.2;
           guard_at 2 (vmath.mk 1.6 1.5) 0.2;
           guard_at 3 (vmath.mk 1.5 1.7) 0.2]
          [] [] 0.

(** Two intruders away from their target, one of them with a guard 0.1 away. *)
Definition world_two_intruders : World :=
  mkWorld map3
          [intruder_at 1 (vmath.mk 1.5 1.5) (vmath.mk 2.5 0.5) 0.2;
           guard_at 2 (vmath.mk 1.6 1.5) 0.2;
           intruder_at 3 (vmath.mk 2.5 2.5) (vmath.mk 2.5 0.5) 0.2]
          [] [] 0.


(** The Euclidean distance between two agents is at most [r]: [r] is not
    negative, and the squares of the two coordinate differences add up to at
    most the square of [r]. *)
Definition within (a b : Agent) (r : Q) : Prop :=
  0 <= r /\
  (vmath.x (location b) - vmath.x (location a)) * (vmath.x (location b) - vmath.x (location a))
  + (vmath.y (location b) - vmath.y (location a)) * (vmath.y (location b) - vmath.y (location a))
  <= r * r.

(** An observer looking along heading 90, the direction of growing [x],
    with a range of 5 and 45 degrees to either side, and a guard 3 units
    straight ahead of it: beyond 1.5 and inside the cone.  The same guard is
    90 degrees off the heading of [sideways], which looks along heading 0.
    [math.atan2(0, 3)] is 0, so that [atan2_unused] and [degrees_unused]
    are exact for this pair. *)
Definition lookout : Agent :=
  mkAgent 1%Z GuardAgent (vmath.mk 1.5 1.5) 90 5 45 0.2 false [] [].
Definition sideways : Agent := guard_at 1 (vmath.mk 1.5 1.5) 0.2.
Definition ahead : Agent := guard_at 2 (vmath.mk 4.5 1.5) 0.2.

(** [p] is within 0.5 of the target of [s]: the test of [_target_check]. *)
Definition inside_target (p : Position) (s : IntruderState) : bool :=
  vmath.length_lt (vmath.sub p (target s)) 0.5.

(** Consecutive target checks of one intruder, which is at the next position
    of [path] each time the check runs. *)
Fixpoint stay (path : list Position) (a : Agent) : Agent :=
  match path with
  | [] => a
  | p :: rest => stay rest (target_update (set_location p a))
  end.

(** A tick count as a float. *)
Definition ticks (n : nat) : Q := inject_Z (Z.of_nat n).

(** An intruder on its target point, with fresh counters. *)
Definition on_target : Position := vmath.mk 1.5 1.5.
Definition dweller : Agent := intruder_at 1 on_target on_target 0.2.


(** An intruder re-entering its target 4 s after leaving it the first time. *)
Definition returning : Agent :=
  mkAgent 1%Z (IntruderAgent (mkIntruder on_target false false 0 80 1))
          on_target 0 5 45 0.2 false [] [].

(** The patrol report of [SimpleGuard.on_tick]: every guard but number 1
    sends a message to agent 1. *)
Definition reporting (_ : World) (a : Agent) (_ : list AgentView) : Agent * list Message.t :=
  (a, if Z.eqb (ID a) 1 then [] else [Message.mk (ID a) 1 "I just turned!"]).

(** Two guards in the open, numbered 2 and 3: there is no agent 1. *)
Definition world_patrol : World :=
  mkWorld map3
          [guard_at 2 (vmath.mk 1.5 1.5) 0.2; guard_at 3 (vmath.mk 2.5 2.5) 0.2]
          [] [] 0.

(** ** More of [World] *)

(** [World.__init__] *)
Definition World_init (m : Map) : World := mkWorld m [] [] [] 0.

(** [self.agents[agent.ID] = agent]: an existing key keeps its place in the
    iteration order, a new key goes to the end. *)
Fixpoint dict_set (a : Agent) (l : list Agent) : list Agent :=
  match l with
  | [] => [a]
  | b :: rest => if Z.eqb (ID b) (ID a) then a :: rest else b :: dict_set a rest
  end.

(** [add_agent], given the agent that [agent_type()] constructed. *)
Definition add_agent (agent : Agent) (w : World) : World :=
  set_agents (dict_set agent (agents w)) w.

(** The keys of the agent dictionary, in iteration order. *)
Definition keys (w : World) : list AgentID := List.map ID (agents w).

(** The distance test of [_capture_check] for one (intruder, guard) pair. *)
Definition in_reach (intruder guard : Agent) : bool :=
  vmath.length_lt (vmath.sub (location intruder) (location guard)) 0.5.

(** [a'] is [a] moved, and possibly flagged as collided: nothing else differs,
    and a flag that was set is still set. *)
Definition only_moved (a a' : Agent) : Prop :=
  ID a' = ID a /\ class a' = class a /\ heading a' = heading a /\
  view_range a' = view_range a /\ view_angle a' = view_angle a /\
  _width a' = _width a /\ _message_queue_in a' = _message_queue_in a /\
  calls a' = calls a /\ (_has_collided a = true -> _has_collided a' = true).


(** The counters of an intruder are never negative, and the ticks inside and
    the ticks since leaving are never both running. *)
Definition counters_ok (s : IntruderState) : Prop :=
  0 <= ticks_in_target s /\ 0 <= ticks_since_target s /\ 0 <= times_visited_target s /\
  (ticks_in_target s == 0 \/ ticks_since_target s == 0).

(** No noise event, current or historical, is stamped with a tick later than
    the tick counter. *)
Definition noise_times_ok (w : World) : Prop :=
  Forall (fun e => (NoiseEvent.time e <= time_ticks w)%Z) (noises w ++ old_noises w).

(** ** [ai/agents.py] *)

(** [on_pick_start] of [SimpleGuard] and of [PathfindingIntruder]:
    [(random.random() * self.map.width, random.random() * self.map.height)],
    given the two values drawn. *)
Definition on_pick_start (m : Map) (r1 r2 : Q) : Q * Q :=
  (r1 * inject_Z (width m), r2 * inject_Z (height m)).

(** ** [gui/renderer.py] *)

Definition SCREEN_WIDTH : Q := 1280.
Definition SCREEN_HEIGHT : Q := 960.
Definition ASPECT_RATIO : Q := SCREEN_WIDTH / SCREEN_HEIGHT.

(** [class Viewport]; the two corners are arrays of two floats. *)
Module Viewport.

Record t : Set := mk { bottom_left : Vector2; top_right : Vector2 }.

(** [Viewport(left, right, bottom, top)] *)
Definition init (left right bottom top : Q) : t :=
  mk (vmath.mk left bottom) (vmath.mk right top).

Definition as_tuple (v : t) : Q * Q * Q * Q :=
  (vmath.x (bottom_left v), vmath.x (top_right v),
   vmath.y (bottom_left v), vmath.y (top_right v)).

Definition center (v : t) : Vector2 :=
  vmath.mk ((vmath.x (bottom_left v) + vmath.x (top_right v)) / 2)
           ((vmath.y (bottom_left v) + vmath.y (top_right v)) / 2).

Definition width (v : t) : Q := vmath.x (top_right v) - vmath.x (bottom_left v).
Definition height (v : t) : Q := vmath.y (top_right v) - vmath.y (bottom_left v).




End Viewport.

(** [np.interp(x, (x0, x1), (f0, f1))]: linear between the two points,
    constant outside them. *)
Definition interp (x x0 x1 f0 f1 : Q) : Q :=
  if Qle_bool x x0 then f0
  else if Qle_bool x1 x then f1
  else (f1 - f0) / (x1 - x0) * (x - x0) + f0.

(** [int(v)] on a float: rounding toward zero. *)
Definition truncate (v : Q) : Z :=
  if Qltb v 0 then (- Qfloor (- v))%Z else Qfloor v.

Inductive MouseButton : Set :=
| MOUSE_BUTTON_LEFT | MOUSE_BUTTON_MIDDLE | MOUSE_BUTTON_RIGHT.


(** The part of [GUI] that the handlers below read and write: the viewport,
    the editing flag, and of the world's map its [size] and its [walls]
    grid, a list of columns. *)
Record GUI : Set := mkGUI {
  viewport   : Viewport.t;
  is_editing : bool;
  map_size   : Z * Z;
  walls      : list (list bool)
}.

(** [GUI.setup]: the initial viewport, editing off. *)
Definition GUI_setup (map_size : Z * Z) (walls : list (list bool)) : GUI :=
  mkGUI (Viewport.init (-50 * ASPECT_RATIO) (250 * ASPECT_RATIO) (-50) 250)
        false map_size walls.

Definition screen_to_map_exact (g : GUI) (x y : Q) : Q * Q :=
  (interp x 0 SCREEN_WIDTH
          (vmath.x (Viewport.bottom_left (viewport g))) (vmath.x (Viewport.top_right (viewport g))),
   interp y 0 SCREEN_HEIGHT
          (vmath.y (Viewport.bottom_left (viewport g))) (vmath.y (Viewport.top_right (viewport g)))).

(** [screen_to_map(x, y)] with [round=True]. *)
Definition screen_to_map (g : GUI) (x y : Q) : Z * Z :=
  let '(mx, my) := screen_to_map_exact g x y in (truncate mx, truncate my).

(** [l[i] = v] on a Python list, for an index that is not negative: out of
    range it raises [IndexError] ([None]). *)
Fixpoint list_set {T} (i : nat) (v : T) (l : list T) : option (list T) :=
  match l, i with
  | [], _ => None
  | _ :: rest, O => Some (v :: rest)
  | b :: rest, S j =>
      match list_set j v rest with
      | Some rest' => Some (b :: rest')
      | None => None
      end
  end.

(** [walls[x][y] = True], for [x] and [y] that are not negative. *)
Definition set_wall (x y : Z) (walls : list (list bool)) : option (list (list bool)) :=
  match nth_error walls (Z.to_nat x) with
  | None => None
  | Some column =>
      match list_set (Z.to_nat y) true column with
      | None => None
      | Some column' => list_set (Z.to_nat x) column' walls
      end
  end.

(** [walls[x][y]], [false] where there is no such cell. *)
Definition wall_at (walls : list (list bool)) (x y : nat) : bool :=
  match nth_error walls x with
  | None => false
  | Some column => nth y column false
  end.

(** [on_mouse_press]; [None] stands for the [IndexError] of a write outside
    the grid. *)
Definition on_mouse_press (x y : Q) (button : MouseButton) (g : GUI) : option GUI :=
  if is_editing g then
    match button with
    | MOUSE_BUTTON_LEFT =>
        let '(cx, cy) := screen_to_map g x y in
        if (0 <=? cx)%Z && (0 <=? cy)%Z && (cx <? fst (map_size g))%Z
           && (cy <? snd (map_size g))%Z
        then match set_wall cx cy (walls g) with
             | Some walls' => Some (mkGUI (viewport g) (is_editing g) (map_size g) walls')
             | None => None
             end
        else Some g
    | _ => Some g
    end
  else Some g.



(** [build_grid]: the first vertex of the six that tile [(x, y)] is written
    to, and the number of vertices of the buffer. *)
Definition tile_index (size : Z * Z) (x y : Z) : Z := ((x * fst size + y) * 6)%Z.
Definition n_vertices (size : Z * Z) : Z := (fst size * snd size * 6)%Z.



(** Every column of the grid is there and has its full height. *)
Definition grid_shape (size : Z * Z) (walls : list (list bool)) : Prop :=
  List.length walls = Z.to_nat (fst size) /\
  Forall (fun column => List.length column = Z.to_nat (snd size)) walls.

(** ** Consecutive target checks of a world *)

(** The agent at position [i] of the dictionary is at [p] now. *)
Definition relocate (i : nat) (p : Position) (w : World) : World :=
  match nth_error (agents w) i with
  | Some a => set_agents (replace_nth i (set_location p a) (agents w)) w
  | None => w
  end.

(** Consecutive runs of [_target_check], the agent at position [i] being at
    the next position of [path] each time the check runs. *)
Definition dwell (i : nat) (path : list Position) (w : World) : World :=
  fold_left (fun w p => fst (_target_check (relocate i p w))) path w.

(** [dweller] alone, and [returning] alone. *)
Definition world_dwell : World := mkWorld map3 [dweller] [] [] 0.
Definition world_returning : World := mkWorld map3 [returning] [] [] 0.

(** A guard of width 0.5 on the centre of the wall cell (0, 1). *)
Definition world_centre : World :=
  mkWorld map3 [guard_at 1 (vmath.mk 0.5 1.5) 0.5] [] [] 0.

(** * Properties *)

(** ** Comparisons *)

Lemma Qltb_lt (a b : Q) : Qltb a b = true <-> a < b.
Proof.
  unfold Qltb. rewrite negb_true_iff.
  split; intro H.
  - apply Qnot_le_lt. intro L. apply Qle_bool_iff in L. congruence.
  - destruct (Qle_bool b a) eqn:E; [|reflexivity].
    apply Qle_bool_iff in E. exfalso. apply (Qlt_not_le _ _ H E).
Qed.

Lemma Qltb_ge (a b : Q) : Qltb a b = false <-> b <= a.
Proof.
  unfold Qltb. rewrite negb_false_iff. apply Qle_bool_iff.
Qed.

Lemma Qle_bool_gt (a b : Q) : Qle_bool a b = false <-> b < a.
Proof.
  split; intro H.
  - apply Qnot_le_lt. intro L. apply Qle_bool_iff in L. congruence.
  - destruct (Qle_bool a b) eqn:E; [|reflexivity].
    apply Qle_bool_iff in E. exfalso. apply (Qlt_not_le _ _ H E).
Qed.

Lemma same_point_refl (p : Position) : same_point p p.
Proof. split; reflexivity. Qed.

Lemma same_agent_refl (a : Agent) : same_agent a a.
Proof. unfold same_agent; repeat split; reflexivity. Qed.

Lemma in_bounds_same (m : Map) (p q : Position) :
  same_point p q -> in_bounds m q -> in_bounds m p.
Proof.
  intros [Hx Hy] [[? ?] [? ?]]. unfold in_bounds. rewrite Hx, Hy. tauto.
Qed.

(** ** Lengths *)



Lemma length_lt_spec (v : Vector2) (r : Q) :
  vmath.length_lt v r = true <-> 0 < r /\ vmath.length_squared v < r * r.
Proof.
  unfold vmath.length_lt. rewrite andb_true_iff. split.
  - intros [A B]. split; apply Qltb_lt; assumption.
  - intros [A B]. split; apply Qltb_lt; assumption.
Qed.

Lemma length_squared_nonneg (v : Vector2) : 0 <= vmath.length_squared v.
Proof. unfold vmath.length_squared. nra. Qed.

(** ** Collision resolution *)

Lemma bounds_check_inside (m : Map) (a : Agent) :
  in_bounds m (location a) ->
  bounds_check m a = set_location (vmath.mk (vmath.x (location a)) (vmath.y (location a))) a.
Proof.
  intros [[Hx0 Hx1] [Hy0 Hy1]]. unfold bounds_check.
  assert (E1 : Qltb (vmath.x (location a)) 0 = false) by (apply Qltb_ge; assumption).
  assert (E2 : Qltb (vmath.y (location a)) 0 = false) by (apply Qltb_ge; assumption).
  cbv zeta. rewrite E1, E2.
  assert (E3 : Qle_bool (inject_Z (width m)) (vmath.x (location a)) = false)
    by (apply Qle_bool_gt; assumption).
  assert (E4 : Qle_bool (inject_Z (height m)) (vmath.y (location a)) = false)
    by (apply Qle_bool_gt; assumption).
  rewrite E3, E4. reflexivity.
Qed.

(** The bounds check lands inside a map that has at least one cell each way. *)
Lemma bounds_check_in_bounds (m : Map) (a : Agent) :
  (1 <= width m)%Z -> (1 <= height m)%Z ->
  in_bounds m (location (bounds_check m a)).
Proof.
  intros HW HH.
  assert (QW : 1 <= inject_Z (width m)) by (change 1 with (inject_Z 1); rewrite <- Zle_Qle; exact HW).
  assert (QH : 1 <= inject_Z (height m)) by (change 1 with (inject_Z 1); rewrite <- Zle_Qle; exact HH).
  unfold bounds_check, in_bounds. cbn [location set_location vmath.x vmath.y].
  split.
  - destruct (Qltb (vmath.x (location a)) 0) eqn:E0.
    + destruct (Qle_bool (inject_Z (width m)) 0) eqn:E1.
      * apply Qle_bool_iff in E1. lra.
      * lra.
    + apply Qltb_ge in E0.
      destruct (Qle_bool (inject_Z (width m)) (vmath.x (location a))) eqn:E1.
      * lra.
      * apply Qle_bool_gt in E1. split; assumption.
  - destruct (Qltb (vmath.y (location a)) 0) eqn:E0.
    + destruct (Qle_bool (inject_Z (height m)) 0) eqn:E1.
      * apply Qle_bool_iff in E1. lra.
      * lra.
    + apply Qltb_ge in E0.
      destruct (Qle_bool (inject_Z (height m)) (vmath.y (location a))) eqn:E1.
      * lra.
      * apply Qle_bool_gt in E1. split; assumption.
Qed.

Lemma probes_clear_walls (m : Map) (a : Agent) :
  probes_clear m a = true ->
  let w := _width a in
  let x := vmath.x (location a) in
  let y := vmath.y (location a) in
  (is_wall m (floor (x - w / 2)) (floor y) = false /\
   is_wall m (floor (x + w / 2)) (floor y) = false /\
   is_wall m (floor x) (floor (y - w / 2)) = false /\
   is_wall m (floor x) (floor (y + w / 2)) = false) /\
  (is_wall m (floor (x - w / 2)) (floor (y - w / 2)) = false /\
   is_wall m (floor (x - w / 2)) (floor (y + w / 2)) = false /\
   is_wall m (floor (x + w / 2)) (floor (y - w / 2)) = false /\
   is_wall m (floor (x + w / 2)) (floor (y + w / 2)) = false).
Proof.
  unfold probes_clear. cbv zeta.
  rewrite !andb_true_iff, !negb_true_iff. tauto.
Qed.

(** With every probe clear, an agent passes through the loop body with its
    coordinates shifted by a zero push and nothing else touched. *)
Lemma resolve_collision_clear (m : Map) (a : Agent) :
  probes_clear m (bounds_check m a) = true ->
  resolve_collision m a =
  Returns tt (set_has_collided (_has_collided a || false)
                (set_location (vmath.add (location (bounds_check m a)) (vmath.mk 0 0))
                              (bounds_check m a))).
Proof.
  intro H. apply probes_clear_walls in H. cbv zeta in H.
  destruct H as [(L & R & B & T) (C1 & C2 & C3 & C4)].
  unfold resolve_collision. cbv zeta.
  assert (E : edge_push m (bounds_check m a) =
              set_has_collided (_has_collided a || false)
                (set_location (vmath.add (location (bounds_check m a)) (vmath.mk 0 0))
                              (bounds_check m a))).
  { unfold edge_push, collision_point. cbv zeta. rewrite L, R, B, T. reflexivity. }
  rewrite E.
  unfold corner_snap, circle_collision. cbv zeta.
  cbn [_width set_has_collided set_location].
  rewrite C1. cbn [bind]. rewrite C2. cbn [bind]. rewrite C3. cbn [bind]. rewrite C4.
  reflexivity.
Qed.

Lemma probes_clear_same (m : Map) (a b : Agent) :
  same_point (location a) (location b) -> _width a = _width b ->
  probes_clear m a = probes_clear m b.
Proof.
  intros [Hx Hy] Hw. unfold probes_clear, floor. cbv zeta.
  rewrite Hw, Hx, Hy. reflexivity.
Qed.

Lemma same_agent_trans (a b c : Agent) :
  same_agent a b -> same_agent b c -> same_agent a c.
Proof.
  unfold same_agent, same_point.
  intros (? & ? & (Hx & Hy) & ? & ? & ? & ? & ? & ? & ?)
         (? & ? & (Hx' & Hy') & ? & ? & ? & ? & ? & ? & ?).
  repeat split; try congruence.
  - rewrite Hx; exact Hx'.
  - rewrite Hy; exact Hy'.
Qed.

(** One pass over an agent that is in bounds with clear probes. *)
Lemma resolve_collision_clear_same (m : Map) (a : Agent) :
  in_bounds m (location a) ->
  probes_clear m a = true ->
  exists a1, resolve_collision m a = Returns tt a1 /\ same_agent a1 a.
Proof.
  intros Hin Hclear.
  assert (Hb := bounds_check_inside m a Hin).
  assert (Hc : probes_clear m (bounds_check m a) = true).
  { rewrite Hb. exact Hclear. }
  eexists. split; [apply resolve_collision_clear; exact Hc|].
  rewrite Hb. unfold same_agent, same_point. cbn.
  rewrite orb_false_r. repeat split; try reflexivity; ring.
Qed.

Lemma for_each_nth {T} (body : T -> Outcome T unit) (l : list T) (i : nat) (a : T) :
  nth_error l i = Some a ->
  nth_error (state_of (for_each body l)) i = Some a \/
  nth_error (state_of (for_each body l)) i = Some (state_of (body a)).
Proof.
  revert i. induction l as [|b rest IH]; intros i H.
  - destruct i; discriminate.
  - destruct i as [|j]; cbn in H.
    + injection H as ->. right. cbn.
      destruct (body a) as [[] a'|e a']; [destruct (for_each body rest)|]; reflexivity.
    + cbn. destruct (body b) as [[] b'|e b'].
      * specialize (IH j H).
        destruct (for_each body rest) as [[] r|e r]; cbn in IH |- *; exact IH.
      * left. exact H.
Qed.

Lemma collision_check_nth (w : World) (i : nat) (a : Agent) :
  nth_error (agents w) i = Some a ->
  nth_error (agents (state_of (_collision_check w))) i = Some a \/
  nth_error (agents (state_of (_collision_check w))) i
  = Some (state_of (resolve_collision (map w) a)).
Proof.
  intro H. unfold _collision_check.
  destruct (for_each_nth (resolve_collision (map w)) (agents w) i a H) as [E|E];
    [left|right]; rewrite <- E;
    destruct (for_each (resolve_collision (map w)) (agents w)); reflexivity.
Qed.

Lemma collision_check_map (w : World) : map (state_of (_collision_check w)) = map w.
Proof.
  unfold _collision_check.
  destruct (for_each (resolve_collision (map w)) (agents w)); reflexivity.
Qed.

Lemma collision_check_clear_once (w : World) (i : nat) (a : Agent) :
  nth_error (agents w) i = Some a ->
  in_bounds (map w) (location a) ->
  probes_clear (map w) a = true ->
  exists a1,
    nth_error (agents (state_of (_collision_check w))) i = Some a1 /\ same_agent a1 a.
Proof.
  intros Hi Hin Hclear.
  destruct (resolve_collision_clear_same (map w) a Hin Hclear) as (a1 & R1 & S1).
  destruct (collision_check_nth w i a Hi) as [E|E].
  - exists a. split; [exact E | apply same_agent_refl].
  - exists a1. rewrite R1 in E. split; assumption.
Qed.

(** ** C9 *)

(** C9: an agent of the world that lies within the map bounds and has none of
    its four edge probes and four corner probes in a wall cell comes out of
    [_collision_check] at the same position, with its has-collided flag and
    everything else as before; running [_collision_check] again on the
    result is a no-op for it as well. *)
Theorem collision_check_clear_is_noop (w : World) (i : nat) (a : Agent) :
  nth_error (agents w) i = Some a ->
  in_bounds (map w) (location a) ->
  probes_clear (map w) a = true ->
  exists a1,
    nth_error (agents (state_of (_collision_check w))) i = Some a1 /\
    same_agent a1 a /\ _has_collided a1 = _has_collided a /\
    exists a2,
      nth_error (agents (state_of (_collision_check (state_of (_collision_check w))))) i
      = Some a2 /\
      same_agent a2 a1 /\ _has_collided a2 = _has_collided a.
Proof.
  intros Hi Hin Hclear.
  destruct (collision_check_clear_once w i a Hi Hin Hclear) as (a1 & N1 & S1).
  exists a1. split; [exact N1|]. split; [exact S1|].
  assert (S1' := S1). destruct S1' as (_ & _ & P & _ & _ & _ & W & C & _).
  split; [exact C|].
  destruct (collision_check_clear_once (state_of (_collision_check w)) i a1 N1)
    as (a2 & N2 & S2).
  - rewrite collision_check_map. exact (in_bounds_same _ _ _ P Hin).
  - rewrite collision_check_map, (probes_clear_same _ a1 a P W). exact Hclear.
  - exists a2. split; [exact N2|]. split; [exact S2|].
    destruct S2 as (_ & _ & _ & _ & _ & _ & _ & C2 & _). congruence.
Qed.

Lemma collision_check_clear_is_noop_witness :
  exists a1,
    nth_error (agents (state_of (_collision_check world_clear))) 0 = Some a1 /\
    same_agent a1 (guard_at 1 (vmath.mk 1.5 1.5) 0.2) /\
    _has_collided a1 = false /\
    exists a2,
      nth_error (agents (state_of (_collision_check (state_of (_collision_check world_clear))))) 0
      = Some a2 /\
      same_agent a2 a1 /\ _has_collided a2 = false.
Proof.
  apply (collision_check_clear_is_noop world_clear 0 (guard_at 1 (vmath.mk 1.5 1.5) 0.2)).
  - reflexivity.
  - unfold in_bounds, Qle, Qlt; cbn; lia.
  - reflexivity.
Defined.

(** ** Frames *)

Lemma frame_refl (w : World) : frame w w.
Proof. repeat split. Qed.

Lemma frame_trans (w1 w2 w3 : World) : frame w1 w2 -> frame w2 w3 -> frame w1 w3.
Proof. unfold frame. intros (? & ? & ?) (? & ? & ?). repeat split; congruence. Qed.

Lemma frame_set_agents (l : list Agent) (w : World) : frame w (set_agents l w).
Proof. repeat split. Qed.

Lemma transmit_message_frame (m : Message.t) (w : World) :
  frame w (state_of (transmit_message m w)).
Proof.
  unfold transmit_message. destruct (lookup _ _); cbn; [apply frame_set_agents | apply frame_refl].
Qed.

Lemma transmit_all_frame (msgs : list Message.t) (w : World) :
  frame w (state_of (transmit_all msgs w)).
Proof.
  revert w. induction msgs as [|m rest IH]; intro w; cbn.
  - apply frame_refl.
  - assert (F := transmit_message_frame m w).
    destruct (transmit_message m w) as [[] w'|e w']; cbn in *.
    + exact (frame_trans _ _ _ F (IH w')).
    + exact F.
Qed.

Lemma collision_check_frame (w : World) : frame w (state_of (_collision_check w)).
Proof.
  unfold _collision_check.
  destruct (for_each _ _); cbn; apply frame_set_agents.
Qed.

Lemma capture_check_frame (w : World) : frame w (fst (_capture_check w)).
Proof. apply frame_set_agents. Qed.

Lemma target_check_frame (w : World) : frame w (fst (_target_check w)).
Proof. apply frame_set_agents. Qed.

Lemma deliver_noises_frame (w : World) : frame w (deliver_noises w).
Proof. apply frame_set_agents. Qed.

Lemma checks_frame (w : World) : frame w (state_of (checks w)).
Proof.
  unfold checks.
  destruct (_capture_check w) as [w1 c] eqn:E1.
  assert (F1 : frame w w1) by (rewrite (surjective_pairing (_capture_check w)) in E1;
                               injection E1 as <- _; apply capture_check_frame).
  destruct c; [exact F1|].
  destruct (_target_check w1) as [w2 t] eqn:E2.
  assert (F2 : frame w1 w2) by (rewrite (surjective_pairing (_target_check w1)) in E2;
                                injection E2 as <- _; apply target_check_frame).
  destruct t; cbn.
  - exact (frame_trans _ _ _ F1 F2).
  - apply (frame_trans _ _ _ F1). apply (frame_trans _ _ _ F2). repeat split.
Qed.

Section TickFrames.

Variable atan2 : Q -> Q -> Q.
Variable degrees : Q -> Q.
Variable agent_tick : World -> Agent -> list AgentView -> Agent * list Message.t.

Lemma run_agent_frame (i : nat) (w : World) :
  frame w (state_of (run_agent atan2 degrees agent_tick i w)).
Proof.
  unfold run_agent. destruct (nth_error (agents w) i) as [a|]; [|apply frame_refl].
  destruct (agent_tick w a _) as [a' sent].
  eapply frame_trans; [|apply transmit_all_frame]. apply frame_set_agents.
Qed.

Lemma run_agents_frame (rounds : list nat) (w : World) :
  frame w (state_of (run_agents atan2 degrees agent_tick rounds w)).
Proof.
  revert w. induction rounds as [|i rest IH]; intro w; cbn.
  - apply frame_refl.
  - assert (F := run_agent_frame i w).
    destruct (run_agent atan2 degrees agent_tick i w) as [[] w'|e w']; cbn in *.
    + exact (frame_trans _ _ _ F (IH w')).
    + exact F.
Qed.

(** From the state after the noise step to the end of [before_checks]. *)
Lemma before_checks_frame (r : Draws) (w : World) :
  frame (emit_random_noise r (reset_noise_list w))
        (state_of (before_checks atan2 degrees agent_tick r w)).
Proof.
  unfold before_checks, agents_phase. cbv zeta.
  set (w2 := emit_random_noise r (reset_noise_list w)).
  assert (F := run_agents_frame (seq 0 (List.length (agents w2))) w2).
  destruct (run_agents _ _ _ _ w2) as [[] w3|e w3]; cbn in *; [|exact F].
  assert (G := collision_check_frame w3).
  destruct (_collision_check w3) as [[] w4|e w4]; cbn in *.
  - apply (frame_trans _ _ _ F). apply (frame_trans _ _ _ G). apply deliver_noises_frame.
  - exact (frame_trans _ _ _ F G).
Qed.

Lemma tick_frame (r : Draws) (w : World) :
  frame (emit_random_noise r (reset_noise_list w))
        (state_of (tick atan2 degrees agent_tick r w)).
Proof.
  unfold tick.
  assert (F := before_checks_frame r w).
  destruct (before_checks _ _ _ r w) as [[] w5|e w5]; cbn in *; [|exact F].
  exact (frame_trans _ _ _ F (checks_frame w5)).
Qed.

End TickFrames.

(** ** What the checks leave alone *)

Lemma map_preserved {X} (f : Agent -> X) (g : Agent -> Agent) (l : list Agent) :
  (forall a, f (g a) = f a) -> List.map f (List.map g l) = List.map f l.
Proof.
  intro H. rewrite List.map_map. apply List.map_ext. exact H.
Qed.

Lemma capture_pair_target_state (i g : Agent) :
  target_state (capture_pair i g) = target_state i.
Proof.
  unfold capture_pair, target_state. destruct (class i) eqn:E; [rewrite E; reflexivity|].
  destruct (vmath.length_lt _ _); [reflexivity | rewrite E; reflexivity].
Qed.

Lemma fold_capture_preserved {X} (f : Agent -> X) (gs : list Agent) :
  (forall i g, f (capture_pair i g) = f i) ->
  forall i, f (fold_left capture_pair gs i) = f i.
Proof.
  intro H. induction gs as [|g rest IH]; intro i; cbn; [reflexivity|].
  rewrite IH. apply H.
Qed.

Lemma capture_check_preserved {X} (f : Agent -> X) (w : World) :
  (forall i g, f (capture_pair i g) = f i) ->
  List.map f (agents (fst (_capture_check w))) = List.map f (agents w).
Proof.
  intro H. unfold _capture_check. cbn [fst agents set_agents].
  apply map_preserved. intro a.
  destruct (is_intruder a); [apply fold_capture_preserved; exact H | reflexivity].
Qed.

(** ** The map over the behaviour phase *)

Section Bounds.

Variable atan2 : Q -> Q -> Q.
Variable degrees : Q -> Q.
Variable agent_tick : World -> Agent -> list AgentView -> Agent * list Message.t.

Lemma agents_phase_map (r : Draws) (w : World) :
  map (state_of (agents_phase atan2 degrees agent_tick r w)) = map w.
Proof.
  unfold agents_phase. cbv zeta.
  destruct (run_agents_frame atan2 degrees agent_tick
              (seq 0 (List.length (agents (emit_random_noise r (reset_noise_list w)))))
              (emit_random_noise r (reset_noise_list w))) as (M & _).
  rewrite M. unfold emit_random_noise. destruct (Qltb _ _); reflexivity.
Qed.

End Bounds.

(** ** C3 *)

(** C3: the claim, and the comment that opens collision resolution ("do a
    quick bounds check first so they stay on the map"), have every agent on
    the map when [tick] returns; the code clamps first and applies the push
    and the snap afterwards, unchecked.  In [world_embedded], a map of 3 x 3
    cells with a wall at cell (0, 1), the guard of width 0.2 at (0.7, 1.5)
    is within the bounds; its four edge probes all hit the wall cell and push
    it to (0.3, 1.5), the first corner probe snaps it onto the circle of
    radius 0.6 around (0.5, 1.5), at (-0.1, 1.5), and [tick] returns, with
    no exception and no winner, with the guard left of the map. *)
Theorem tick_leaves_the_map (atan2 : Q -> Q -> Q) (degrees : Q -> Q) :
  let res := tick atan2 degrees idle quiet world_embedded in
  Forall (fun a => in_bounds (map world_embedded) (location a)) (agents world_embedded) /\
  res = Returns ([], false) (state_of res) /\
  exists a rest,
    agents (state_of res) = a :: rest /\ ID a = 1%Z /\
    vmath.x (location a) == -0.1 /\ vmath.y (location a) == 1.5 /\
    ~ in_bounds (map (state_of res)) (location a).
Proof.
  cbv zeta. split; [|split].
  - repeat constructor; unfold Qle, Qlt; cbn; lia.
  - vm_compute. reflexivity.
  - eexists. eexists. split; [vm_compute; reflexivity|].
    split; [reflexivity|]. split; [reflexivity|]. split; [reflexivity|].
    intros [[X0 _] _]. revert X0. unfold Qle. cbn. lia.
Qed.

(** ** C1 *)

(** C1, as claimed, fails: in [world_caught] the only intruder stands on its
    target point with a guard 0.1 away.  The tick prints "The guards won!" and
    returns [True]; the intruder's counters are all still 0 afterwards, where
    the target check would have set [ticks_in_target] and
    [times_visited_target] to 1. *)
Lemma tick_captured_leaves_counters :
  let res := tick atan2_unused degrees_unused idle quiet world_caught in
  res = Returns (["The guards won!"%string], true) (state_of res) /\
  List.map target_state (agents (state_of res)) = [Some (0, 0, 0, false); None] /\
  List.map target_state (agents (fst (_target_check (state_of res))))
  = [Some (1, 0, 1, false); None].
Proof.
  vm_compute. repeat split.
Qed.

(** C1, amended: on a tick whose capture check finds all intruders captured,
    [tick] prints "The guards won!" and returns [True] at once, in the state
    the capture check left; the target check is not run, so the target
    counters and [reached_target] of every agent are what they were before
    the checks, and the tick counter is not incremented. *)
Theorem tick_all_captured (atan2 : Q -> Q -> Q) (degrees : Q -> Q)
    (agent_tick : World -> Agent -> list AgentView -> Agent * list Message.t)
    (r : Draws) (w w5 : World) :
  before_checks atan2 degrees agent_tick r w = Returns tt w5 ->
  snd (_capture_check w5) = true ->
  tick atan2 degrees agent_tick r w
  = Returns (["The guards won!"%string], true) (fst (_capture_check w5)) /\
  List.map target_state (agents (fst (_capture_check w5)))
  = List.map target_state (agents w5) /\
  time_ticks (fst (_capture_check w5)) = time_ticks w5.
Proof.
  intros B C. split; [|split].
  - unfold tick. rewrite B. cbn [bind]. unfold checks.
    destruct (_capture_check w5) as [w6 c]. cbn in C. subst c. reflexivity.
  - apply capture_check_preserved. exact capture_pair_target_state.
  - reflexivity.
Qed.

Lemma tick_all_captured_witness :
  tick atan2_unused degrees_unused idle quiet world_caught
  = Returns (["The guards won!"%string], true)
            (fst (_capture_check
                    (state_of (before_checks atan2_unused degrees_unused idle quiet
                                             world_caught)))) /\
  List.map target_state
    (agents (fst (_capture_check
                    (state_of (before_checks atan2_unused degrees_unused idle quiet
                                             world_caught)))))
  = List.map target_state
      (agents (state_of (before_checks atan2_unused degrees_unused idle quiet world_caught))) /\
  time_ticks (fst (_capture_check
                     (state_of (before_checks atan2_unused degrees_unused idle quiet
                                              world_caught))))
  = time_ticks (state_of (before_checks atan2_unused degrees_unused idle quiet world_caught)).
Proof.
  apply (tick_all_captured atan2_unused degrees_unused idle quiet world_caught).
  - vm_compute. reflexivity.
  - vm_compute. reflexivity.
Defined.

(** ** C2 *)

(** The inner loop body notifies whenever the pair is in reach, captured
    already or not. *)
Lemma capture_pair_notifies (i g : Agent) (s : IntruderState) :
  class i = IntruderAgent s ->
  vmath.length_lt (vmath.sub (location i) (location g)) 0.5 = true ->
  calls (capture_pair i g) = calls i ++ [on_captured] /\
  class (capture_pair i g) = IntruderAgent (set_is_captured true s).
Proof.
  intros C R. unfold capture_pair. rewrite C, R. split; reflexivity.
Qed.

(** C2: [on_captured] is documented as "Called once when the agent is
    captured", but [_capture_check] calls it for every guard in reach on every
    tick.  With two guards within 0.5 of the one intruder, a single tick
    invokes it twice; with one guard staying within 0.5 of one of two
    intruders, the first tick returns [False] and the second tick invokes it
    again. *)
Theorem on_captured_invoked_twice :
  (let res := tick atan2_unused degrees_unused idle quiet world_two_guards in
   res = Returns (["The guards won!"%string], true) (state_of res) /\
   List.map captured_notifications (agents (state_of res)) = [2%nat; 0%nat; 0%nat]) /\
  (let res1 := tick atan2_unused degrees_unused idle quiet world_two_intruders in
   let res2 := tick atan2_unused degrees_unused idle quiet (state_of res1) in
   res1 = Returns ([], false) (state_of res1) /\
   List.map captured_notifications (agents (state_of res1)) = [1%nat; 0%nat; 0%nat] /\
   res2 = Returns ([], false) (state_of res2) /\
   List.map captured_notifications (agents (state_of res2)) = [2%nat; 0%nat; 0%nat]).
Proof.
  vm_compute. repeat split.
Qed.

(** ** C4 *)





Section Vision.

Variable atan2 : Q -> Q -> Q.
Variable degrees : Q -> Q.





End Vision.

(** The cone decides for a guard 3 units away: dead ahead of [lookout] it is
    seen, 90 degrees off the heading of [sideways] it is not; and neither
    sees itself. *)
Lemma vision_cone_examples :
  visible_agents atan2_unused degrees_unused [lookout; ahead] lookout = [mkAgentView ahead] /\
  visible_agents atan2_unused degrees_unused [sideways; ahead] sideways = [] /\
  ~ within lookout ahead 1.5.
Proof.
  split; [vm_compute; reflexivity|]. split; [vm_compute; reflexivity|].
  intros [_ H]. revert H. unfold Qle. cbn. lia.
Qed.


(** ** The target check, one intruder at a time *)

(** Reduce the projections of the record updates, and nothing else. *)
Ltac projections :=
  cbn [target is_captured reached_target ticks_in_target ticks_since_target
       times_visited_target set_is_captured set_reached_target set_ticks_in_target
       set_ticks_since_target set_times_visited_target
       ID class location heading view_range view_angle _width _has_collided
       _message_queue_in calls set_location set_has_collided set_class enqueue notify
       orb andb].

Lemma ticks_succ (n : nat) : ticks (S n) == ticks n + 1.
Proof.
  unfold ticks. rewrite Nat2Z.inj_succ. unfold Z.succ. rewrite inject_Z_plus. reflexivity.
Qed.

Lemma ticks_le (n m : nat) : ticks n <= ticks m <-> (n <= m)%nat.
Proof.
  unfold ticks. rewrite <- Zle_Qle. lia.
Qed.

(** The dwell test [ticks_in_target * TIME_PER_TICK >= 3.0] holds from 60 ticks on. *)
Lemma dwell_test (v : Q) (n : nat) :
  v == ticks n ->
  Qle_bool 3 (v * TIME_PER_TICK) = (60 <=? n)%nat.
Proof.
  intro H.
  assert (E : v * TIME_PER_TICK == v / 20).
  { unfold TIME_PER_TICK, TICK_RATE. field. }
  destruct (60 <=? n)%nat eqn:L.
  - apply Nat.leb_le in L. apply Qle_bool_iff. rewrite E, H.
    apply (ticks_le 60 n) in L. change (ticks 60) with 60 in L.
    apply Qle_shift_div_l; lra.
  - apply Nat.leb_gt in L. apply Qle_bool_gt. rewrite E, H.
    assert (L' : ticks n <= ticks 59) by (apply ticks_le; lia).
    change (ticks 59) with 59 in L'.
    apply Qlt_shift_div_r; lra.
Qed.

Lemma target_counters_inside_ticks (s : IntruderState) :
  ticks_in_target (target_counters true s) = ticks_in_target s + 1.
Proof.
  unfold target_counters.
  destruct (Qeq_bool (ticks_in_target s) 0); [|reflexivity].
  destruct (_ || _); reflexivity.
Qed.

Lemma target_counters_target (inside : bool) (s : IntruderState) :
  target (target_counters inside s) = target s.
Proof.
  unfold target_counters. destruct inside.
  - destruct (Qeq_bool (ticks_in_target s) 0); [|reflexivity].
    destruct (_ || _); reflexivity.
  - repeat (destruct (Qltb _ _)); reflexivity.
Qed.

Lemma target_counters_reached (inside : bool) (s : IntruderState) :
  reached_target (target_counters inside s) = reached_target s.
Proof.
  unfold target_counters. destruct inside.
  - destruct (Qeq_bool (ticks_in_target s) 0); [|reflexivity].
    destruct (_ || _); reflexivity.
  - repeat (destruct (Qltb _ _)); reflexivity.
Qed.

(** Inside the target, the visit counter moves on a fresh entry only, and
    then by at most one. *)
Lemma target_counters_inside_visits (s : IntruderState) :
  times_visited_target (target_counters true s)
  = if Qeq_bool (ticks_in_target s) 0
       && (Qle_bool 3 (ticks_since_target s * TIME_PER_TICK)
           || Qeq_bool (times_visited_target s) 0)
    then times_visited_target s + 1
    else times_visited_target s.
Proof.
  unfold target_counters.
  destruct (Qeq_bool (ticks_in_target s) 0); [|reflexivity].
  destruct (_ || _); reflexivity.
Qed.

(** The second half of the loop body, given the counters of this tick. *)
Lemma target_update_unfold (a : Agent) (s : IntruderState) :
  class a = IntruderAgent s ->
  let s1 := target_counters (inside_target (location a) s) s in
  target_update a =
  if Qle_bool 3 (ticks_in_target s1 * TIME_PER_TICK) then
    notify on_reached_target (set_class (IntruderAgent (set_reached_target true s1)) a)
  else if Qle_bool 2 (times_visited_target s1) then
    set_class (IntruderAgent (set_reached_target true s1)) a
  else set_class (IntruderAgent s1) a.
Proof.
  intro C. unfold target_update. rewrite C. reflexivity.
Qed.

Lemma inside_target_same (p : Position) (s s' : IntruderState) :
  target s' = target s -> inside_target p s' = inside_target p s.
Proof. unfold inside_target. intros ->. reflexivity. Qed.

(** One check of an intruder that is inside the target and has been there
    for [t] ticks. *)
Lemma stay_step (p : Position) (a : Agent) (s : IntruderState) (t : nat) :
  class a = IntruderAgent s ->
  inside_target p s = true ->
  ticks_in_target s == ticks t ->
  exists s1,
    class (target_update (set_location p a)) = IntruderAgent s1 /\
    target s1 = target s /\
    ticks_in_target s1 == ticks (S t) /\
    calls (target_update (set_location p a))
    = calls a ++ (if (59 <=? t)%nat then [on_reached_target] else []) /\
    times_visited_target s1 = times_visited_target (target_counters true s) /\
    reached_target s1
    = (59 <=? t)%nat || Qle_bool 2 (times_visited_target (target_counters true s))
      || reached_target s.
Proof.
  intros C I T.
  assert (U := target_update_unfold (set_location p a) s C).
  cbv zeta in U. cbn [location set_location] in U. rewrite I in U.
  assert (T1 : ticks_in_target (target_counters true s) == ticks (S t)).
  { rewrite target_counters_inside_ticks, ticks_succ, T. reflexivity. }
  assert (D := dwell_test _ _ T1). change (60 <=? S t)%nat with (59 <=? t)%nat in D.
  rewrite D in U. rewrite U.
  destruct (59 <=? t)%nat.
  - eexists. split; [reflexivity|]. projections.
    rewrite target_counters_target. repeat split. exact T1.
  - destruct (Qle_bool 2 (times_visited_target (target_counters true s))) eqn:V.
    + eexists. split; [reflexivity|]. projections.
      rewrite target_counters_target, app_nil_r. repeat split. exact T1.
    + eexists. split; [reflexivity|]. projections.
      rewrite target_counters_target, target_counters_reached, app_nil_r.
      repeat split. exact T1.
Qed.

(** While inside, an intruder that does not yet have its two visits does not
    get them before it leaves. *)
Lemma inside_visits_bound (s : IntruderState) (t : nat) :
  ticks_in_target s == ticks t ->
  times_visited_target s + (if (t =? 0)%nat then 1 else 0) < 2 ->
  times_visited_target (target_counters true s) < 2.
Proof.
  intros T B. rewrite target_counters_inside_visits.
  destruct t as [|t]; cbn [Nat.eqb] in B.
  - destruct (_ && _); lra.
  - assert (E : Qeq_bool (ticks_in_target s) 0 = false).
    { destruct (Qeq_bool (ticks_in_target s) 0) eqn:E; [|reflexivity].
      apply Qeq_bool_iff in E. rewrite T, ticks_succ in E.
      assert (P : 0 <= ticks t) by (change 0 with (ticks 0); apply ticks_le; lia).
      lra. }
    rewrite E. cbn. lra.
Qed.

Lemma stay_inside (path : list Position) :
  forall (a : Agent) (s : IntruderState) (t : nat),
    class a = IntruderAgent s ->
    ticks_in_target s == ticks t ->
    Forall (fun p => inside_target p s = true) path ->
    exists s',
      class (stay path a) = IntruderAgent s' /\
      target s' = target s /\
      ticks_in_target s' == ticks (t + List.length path) /\
      calls (stay path a)
      = calls a ++ repeat on_reached_target ((t + List.length path - 59) - (t - 59)) /\
      (path <> [] -> (60 <= t + List.length path)%nat -> reached_target s' = true) /\
      ((t + List.length path <= 59)%nat -> reached_target s = false ->
       times_visited_target s + (if (t =? 0)%nat then 1 else 0) < 2 ->
       reached_target s' = false).
Proof.
  induction path as [|p rest IH]; intros a s t C T F.
  - exists s. cbn [stay List.length]. rewrite Nat.add_0_r, Nat.sub_diag. cbn [repeat].
    rewrite app_nil_r.
    split; [exact C|]. split; [reflexivity|]. split; [exact T|]. split; [reflexivity|].
    split; [intro N; contradiction | intros _ R _; exact R].
  - inversion F as [|? ? Ip Fr]; subst.
    destruct (stay_step p a s t C Ip T) as (s1 & C1 & G1 & T1 & K1 & V1 & R1).
    assert (Fr' : Forall (fun q => inside_target q s1 = true) rest).
    { apply (Forall_impl _ (P := fun q => inside_target q s = true)); [|exact Fr].
      intros q Hq. rewrite (inside_target_same q s s1 G1). exact Hq. }
    destruct (IH _ s1 (S t) C1 T1 Fr') as (s' & C' & G' & T' & K' & Rt & Rf).
    exists s'. cbn [stay List.length].
    replace (t + S (List.length rest))%nat with (S t + List.length rest)%nat by lia.
    split; [exact C'|]. split; [congruence|]. split; [exact T'|]. split; [|split].
    + rewrite K', K1, <- app_assoc. f_equal.
      destruct (59 <=? t)%nat eqn:L.
      * apply Nat.leb_le in L. change [on_reached_target] with (repeat on_reached_target 1).
        rewrite <- repeat_app. f_equal. lia.
      * apply Nat.leb_gt in L. cbn [app]. f_equal. lia.
    + intros _ L. destruct rest as [|q rest'].
      * cbn [stay] in C'. rewrite C1 in C'. injection C' as <-.
        rewrite R1. cbn [List.length] in L.
        assert (E : (59 <=? t)%nat = true) by (apply Nat.leb_le; lia).
        rewrite E. reflexivity.
      * apply Rt; [discriminate | exact L].
    + intros L R0 B. apply Rf; [exact L | |].
      * rewrite R1, R0.
        assert (E : (59 <=? t)%nat = false) by (apply Nat.leb_gt; lia).
        rewrite E. cbn. rewrite orb_false_r.
        apply Qle_bool_gt. exact (inside_visits_bound s t T B).
      * cbn [Nat.eqb]. rewrite V1.
        assert (X := inside_visits_bound s t T B). lra.
Qed.

(** [_target_check] runs the loop body on every agent of the dictionary. *)
Lemma target_check_agent (w : World) (i : nat) :
  nth_error (agents (fst (_target_check w))) i
  = option_map target_update (nth_error (agents w) i).
Proof.
  unfold _target_check. cbn [fst agents set_agents]. apply nth_error_map.
Qed.

(** ** C5 *)

(** Inside the target the visit counter does not go down. *)
Lemma target_counters_inside_visits_le (s : IntruderState) :
  times_visited_target s <= times_visited_target (target_counters true s).
Proof.
  rewrite target_counters_inside_visits. destruct (_ && _); lra.
Qed.

(** Over a stay inside the target, [reached_target] is set by the dwell
    rule, by the visit rule, or not at all. *)
Lemma stay_inside_reached (path : list Position) :
  forall (a : Agent) (s : IntruderState) (t : nat),
    path <> [] ->
    class a = IntruderAgent s ->
    ticks_in_target s == ticks t ->
    Forall (fun p => inside_target p s = true) path ->
    exists s',
      class (stay path a) = IntruderAgent s' /\
      times_visited_target s <= times_visited_target s' /\
      reached_target s'
      = (60 <=? t + List.length path)%nat || Qle_bool 2 (times_visited_target s')
        || reached_target s.
Proof.
  induction path as [|p rest IH]; intros a s t N C T F; [contradiction|].
  inversion F as [|? ? Ip Fr]; subst.
  destruct (stay_step p a s t C Ip T) as (s1 & C1 & G1 & T1 & _ & V1 & R1).
  assert (L1 : times_visited_target s <= times_visited_target s1).
  { rewrite V1. apply target_counters_inside_visits_le. }
  rewrite <- V1 in R1.
  destruct rest as [|q rest'].
  - exists s1. cbn [stay List.length]. split; [exact C1|]. split; [exact L1|].
    rewrite R1. replace (t + 1)%nat with (S t) by lia. reflexivity.
  - assert (Fr' : Forall (fun q => inside_target q s1 = true) (q :: rest')).
    { apply (Forall_impl _ (P := fun q => inside_target q s = true)); [|exact Fr].
      intros q' Hq. rewrite (inside_target_same q' s s1 G1). exact Hq. }
    destruct (IH _ s1 (S t) ltac:(discriminate) C1 T1 Fr') as (s' & C' & L' & R').
    exists s'. split; [exact C'|]. split; [lra|].
    rewrite R', R1.
    replace (t + List.length (p :: q :: rest'))%nat
      with (S t + List.length (q :: rest'))%nat by (cbn [List.length]; lia).
    destruct (60 <=? S t + List.length (q :: rest'))%nat eqn:D.
    + reflexivity.
    + assert (E : (59 <=? t)%nat = false).
      { apply Nat.leb_gt. apply Nat.leb_gt in D. cbn [List.length] in D. lia. }
      rewrite E. cbn [orb].
      destruct (Qle_bool 2 (times_visited_target s1)) eqn:V; cbn [orb].
      * assert (V' : Qle_bool 2 (times_visited_target s') = true).
        { apply Qle_bool_iff. apply Qle_bool_iff in V. lra. }
        rewrite V'. reflexivity.
      * reflexivity.
Qed.

(** A visit is counted when it begins, and not again while it lasts. *)
Lemma target_counters_inside_visits_later (s : IntruderState) (t : nat) :
  ticks_in_target s == ticks (S t) ->
  times_visited_target (target_counters true s) = times_visited_target s.
Proof.
  intro T. rewrite target_counters_inside_visits.
  assert (E : Qeq_bool (ticks_in_target s) 0 = false).
  { destruct (Qeq_bool (ticks_in_target s) 0) eqn:E; [|reflexivity].
    apply Qeq_bool_iff in E. rewrite T, ticks_succ in E.
    assert (P : 0 <= ticks t) by (change 0 with (ticks 0); apply ticks_le; lia).
    lra. }
  rewrite E. reflexivity.
Qed.

Lemma stay_inside_visits (path : list Position) :
  forall (a : Agent) (s : IntruderState) (t : nat),
    class a = IntruderAgent s ->
    ticks_in_target s == ticks (S t) ->
    Forall (fun p => inside_target p s = true) path ->
    exists s',
      class (stay path a) = IntruderAgent s' /\
      times_visited_target s' = times_visited_target s.
Proof.
  induction path as [|p rest IH]; intros a s t C T F.
  - exists s. split; [exact C | reflexivity].
  - inversion F as [|? ? Ip Fr]; subst.
    destruct (stay_step p a s (S t) C Ip T) as (s1 & C1 & G1 & T1 & _ & V1 & _).
    assert (Fr' : Forall (fun q => inside_target q s1 = true) rest).
    { apply (Forall_impl _ (P := fun q => inside_target q s = true)); [|exact Fr].
      intros q Hq. rewrite (inside_target_same q s s1 G1). exact Hq. }
    destruct (IH _ s1 (S t) C1 T1 Fr') as (s' & C' & V').
    exists s'. split; [exact C'|].
    rewrite V', V1. exact (target_counters_inside_visits_later s t T).
Qed.

(** The visit counter over a visit that begins with the first position of
    the path. *)
Lemma stay_entry_visits (path : list Position) (a : Agent) (s : IntruderState) :
  path <> [] ->
  class a = IntruderAgent s ->
  ticks_in_target s == ticks 0 ->
  Forall (fun p => inside_target p s = true) path ->
  exists s',
    class (stay path a) = IntruderAgent s' /\
    times_visited_target s' = times_visited_target (target_counters true s).
Proof.
  intros N C T F. destruct path as [|p rest]; [contradiction|].
  inversion F as [|? ? Ip Fr]; subst.
  destruct (stay_step p a s 0 C Ip T) as (s1 & C1 & G1 & T1 & _ & V1 & _).
  assert (Fr' : Forall (fun q => inside_target q s1 = true) rest).
  { apply (Forall_impl _ (P := fun q => inside_target q s = true)); [|exact Fr].
    intros q Hq. rewrite (inside_target_same q s s1 G1). exact Hq. }
  destruct (stay_inside_visits rest _ s1 0 C1 T1 Fr') as (s' & C' & V').
  exists s'. split; [exact C' | congruence].
Qed.

Lemma nth_error_replace_nth (i : nat) (a b : Agent) (l : list Agent) :
  nth_error l i = Some b -> nth_error (replace_nth i a l) i = Some a.
Proof.
  revert i. induction l as [|c rest IH]; intros [|i] H; cbn in *;
    try discriminate; [reflexivity | apply IH; exact H].
Qed.

Lemma Forall_firstn_prefix {A} (P : A -> Prop) (n : nat) (l : list A) :
  Forall P l -> Forall P (firstn n l).
Proof.
  intro F. revert n. induction F as [|x l Hx F IH]; intros [|n]; cbn; constructor;
    [exact Hx | apply IH].
Qed.

(** The agent at position [i] goes through [stay] while the world goes
    through [dwell]. *)
Lemma dwell_agent (i : nat) (path : list Position) :
  forall (w : World) (a : Agent),
    nth_error (agents w) i = Some a ->
    nth_error (agents (dwell i path w)) i = Some (stay path a).
Proof.
  induction path as [|p rest IH]; intros w a H; [exact H|].
  cbn [dwell fold_left stay]. apply IH.
  rewrite target_check_agent. unfold relocate. rewrite H. cbn [agents set_agents].
  rewrite (nth_error_replace_nth i _ a _ H). reflexivity.
Qed.

(** C5, as claimed, fails in its second half: [returning] has left its
    target 80 ticks (4 s) ago with one visit counted and is back on it.  The
    first tick of the new visit counts the second visit and sets
    [reached_target], 59 ticks before the dwell rule would, and the tick
    reports the intruders' win; the only call the intruder has received is
    the noise delivery of the tick, [on_reached_target] is not among them. *)
Lemma returning_reaches_at_once :
  let res := tick atan2_unused degrees_unused idle quiet world_returning in
  List.map target_state (agents world_returning) = [Some (0, 80, 1, false)] /\
  res = Returns (["The intruders won!"%string], true) (state_of res) /\
  List.map target_state (agents (state_of res)) = [Some (1, 0, 2, true)] /\
  List.map calls (agents (state_of res)) = [[on_noise []]].
Proof.
  vm_compute. repeat split.
Qed.

(** C5, amended: an intruder in the dictionary that enters its target radius
    ([ticks_in_target] is 0) and is within 0.5 of the target point at 60
    consecutive runs of [_target_check] has [reached_target] set and
    [on_reached_target] invoked, once, by the 60th run, where
    [ticks_in_target * TIME_PER_TICK] reaches 3.0; after each of the first
    59 runs [on_reached_target] has not been invoked, and [reached_target]
    is set exactly when it was set at entry or the visit rule has set it
    ([times_visited_target] is 2 or more); on a first visit it is as it was
    at entry. *)
Theorem dwell_sixty_checks (w : World) (i : nat) (a : Agent) (s : IntruderState)
    (path : list Position) :
  nth_error (agents w) i = Some a ->
  class a = IntruderAgent s ->
  ticks_in_target s == 0 ->
  List.length path = 60%nat ->
  Forall (fun p => inside_target p s = true) path ->
  (forall n, (1 <= n <= 59)%nat ->
     exists a' s',
       nth_error (agents (dwell i (firstn n path) w)) i = Some a' /\
       class a' = IntruderAgent s' /\
       ticks_in_target s' == ticks n /\
       ticks_in_target s' * TIME_PER_TICK < 3 /\
       calls a' = calls a /\
       reached_target s' = reached_target s || Qle_bool 2 (times_visited_target s') /\
       (times_visited_target s == 0 -> reached_target s' = reached_target s)) /\
  exists a' s',
    nth_error (agents (dwell i path w)) i = Some a' /\
    class a' = IntruderAgent s' /\
    3 <= ticks_in_target s' * TIME_PER_TICK /\
    reached_target s' = true /\
    calls a' = calls a ++ [on_reached_target].
Proof.
  intros H C T L F. split.
  - intros n Hn.
    assert (Ln : List.length (firstn n path) = n) by (rewrite length_firstn; lia).
    assert (Fn : Forall (fun p => inside_target p s = true) (firstn n path)).
    { apply Forall_firstn_prefix. exact F. }
    assert (Nn : firstn n path <> []).
    { intro E. rewrite E in Ln. cbn in Ln. lia. }
    destruct (stay_inside (firstn n path) a s 0 C T Fn) as (s' & C' & _ & T' & K & _ & _).
    destruct (stay_inside_reached (firstn n path) a s 0 Nn C T Fn) as (s2 & C2 & _ & R2).
    rewrite C' in C2. injection C2 as <-.
    destruct (stay_entry_visits (firstn n path) a s Nn C T Fn) as (s3 & C3 & V3).
    rewrite C' in C3. injection C3 as <-.
    assert (E : (60 <=? 0 + n)%nat = false) by (apply Nat.leb_gt; lia).
    rewrite Ln, E in R2. cbn [orb] in R2.
    rewrite Ln in *. cbn [Nat.add Nat.sub] in *.
    exists (stay (firstn n path) a), s'.
    split; [apply dwell_agent; exact H|]. split; [exact C'|]. split; [exact T'|].
    split; [|split; [|split]].
    + apply Qle_bool_gt. rewrite (dwell_test _ n T'). apply Nat.leb_gt. lia.
    + rewrite K. replace (n - 59)%nat with 0%nat by lia. apply app_nil_r.
    + rewrite R2. apply orb_comm.
    + intro V0. rewrite R2.
      assert (B : times_visited_target (target_counters true s) < 2).
      { apply (inside_visits_bound s 0 T). cbn. rewrite V0. reflexivity. }
      rewrite V3. apply Qle_bool_gt in B. rewrite B. reflexivity.
  - destruct (stay_inside path a s 0 C T F) as (s' & C' & _ & T' & K & Rt & _).
    rewrite L in *. cbn [Nat.add Nat.sub] in *.
    exists (stay path a), s'.
    split; [apply dwell_agent; exact H|]. split; [exact C'|]. split; [|split].
    + apply Qle_bool_iff. rewrite (dwell_test _ 60 T'). reflexivity.
    + apply Rt; [|lia]. intro E. rewrite E in L. discriminate.
    + exact K.
Qed.

Lemma dwell_sixty_checks_witness :
  (forall n, (1 <= n <= 59)%nat ->
     exists a' s',
       nth_error (agents (dwell 0 (firstn n (repeat on_target 60)) world_dwell)) 0 = Some a' /\
       class a' = IntruderAgent s' /\
       ticks_in_target s' == ticks n /\
       ticks_in_target s' * TIME_PER_TICK < 3 /\
       calls a' = calls dweller /\
       reached_target s'
       = reached_target (mkIntruder on_target false false 0 0 0)
         || Qle_bool 2 (times_visited_target s') /\
       (times_visited_target (mkIntruder on_target false false 0 0 0) == 0 ->
        reached_target s' = reached_target (mkIntruder on_target false false 0 0 0))) /\
  exists a' s',
    nth_error (agents (dwell 0 (repeat on_target 60) world_dwell)) 0 = Some a' /\
    class a' = IntruderAgent s' /\
    3 <= ticks_in_target s' * TIME_PER_TICK /\
    reached_target s' = true /\
    calls a' = calls dweller ++ [on_reached_target].
Proof.
  apply (dwell_sixty_checks world_dwell 0 dweller
           (mkIntruder on_target false false 0 0 0) (repeat on_target 60)).
  - reflexivity.
  - reflexivity.
  - reflexivity.
  - reflexivity.
  - apply Forall_forall. intros p H. apply repeat_spec in H. subst p. reflexivity.
Defined.

(** At the witness the first 59 checks leave [reached_target] false and the
    log empty, and the 60th sets the one and writes the other. *)
Lemma dwell_checks_of_dweller :
  List.map target_state (agents (dwell 0 (repeat on_target 59) world_dwell))
  = [Some (59, 0, 1, false)] /\
  List.map calls (agents (dwell 0 (repeat on_target 59) world_dwell)) = [[]] /\
  List.map target_state (agents (dwell 0 (repeat on_target 60) world_dwell))
  = [Some (60, 0, 1, true)] /\
  List.map calls (agents (dwell 0 (repeat on_target 60) world_dwell)) = [[on_reached_target]].
Proof.
  vm_compute. repeat split.
Qed.

(** ** C6 *)




(** ** C7 *)

Lemma lookup_None (key : AgentID) (l : list Agent) :
  lookup key l = None <-> ~ In key (List.map ID l).
Proof.
  induction l as [|a rest IH]; cbn.
  - tauto.
  - destruct (Z.eqb (ID a) key) eqn:E.
    + apply Z.eqb_eq in E. split; [discriminate | intro H; exfalso; apply H; left; exact E].
    + apply Z.eqb_neq in E. rewrite IH. tauto.
Qed.

(** An exception raised before the checks leaves [tick] as it is. *)
Lemma tick_raises (atan2 : Q -> Q -> Q) (degrees : Q -> Q)
    (agent_tick : World -> Agent -> list AgentView -> Agent * list Message.t)
    (r : Draws) (w : World) (e : Exn) (w' : World) :
  before_checks atan2 degrees agent_tick r w = Raises e w' ->
  tick atan2 degrees agent_tick r w = Raises e w'.
Proof.
  intro H. unfold tick. rewrite H. reflexivity.
Qed.

(** C7, as claimed, fails: in [world_patrol] the agents are numbered 2 and 3;
    transmitting a message addressed to agent 1 raises [KeyError], and a tick
    in which guard 2 sends its patrol report to agent 1 ends with that
    [KeyError] instead of returning. *)
Lemma transmit_unknown_raises :
  transmit_message (Message.mk 2 1 "I just turned!") world_patrol
  = Raises KeyError world_patrol /\
  tick atan2_unused degrees_unused reporting quiet world_patrol
  = Raises KeyError world_patrol.
Proof.
  split; vm_compute; reflexivity.
Qed.

(** C7, amended: transmitting a message whose target is not a key of the
    agent dictionary raises [KeyError] from the dictionary lookup; nothing is
    logged and nothing is appended, so the world, with every inbound queue, is
    as it was; [World] does not handle the exception, which goes to the
    caller. *)
Theorem transmit_unknown_target (message : Message.t) (w : World) :
  ~ In (Message.target message) (List.map ID (agents w)) ->
  transmit_message message w = Raises KeyError w /\
  List.map _message_queue_in (agents (state_of (transmit_message message w)))
  = List.map _message_queue_in (agents w).
Proof.
  intro H. apply lookup_None in H.
  assert (E : transmit_message message w = Raises KeyError w).
  { unfold transmit_message. rewrite H. reflexivity. }
  rewrite E. split; reflexivity.
Qed.

Lemma transmit_unknown_target_witness :
  transmit_message (Message.mk 2 1 "I just turned!") world_patrol
  = Raises KeyError world_patrol /\
  List.map _message_queue_in
    (agents (state_of (transmit_message (Message.mk 2 1 "I just turned!") world_patrol)))
  = List.map _message_queue_in (agents world_patrol).
Proof.
  apply (transmit_unknown_target (Message.mk 2 1 "I just turned!") world_patrol).
  cbn. intros [H|[H|H]]; [discriminate | discriminate | exact H].
Defined.

(** ** C8 *)

(** C8: [tick] depends on its world only through [reset_noise_list], which
    appends the current noise list, in order, to the historical one and
    empties it; [emit_random_noise] then adds one event, stamped with the
    tick counter, or none; after the tick, whether it returned or raised, the
    historical list is the old one followed by the old current list and the
    current list holds at most that one event; and no operation of [World]
    takes anything off the historical list. *)
Theorem tick_noise_lists (atan2 : Q -> Q -> Q) (degrees : Q -> Q)
    (agent_tick : World -> Agent -> list AgentView -> Agent * list Message.t)
    (r : Draws) (w : World) :
  let w1 := reset_noise_list w in
  let w2 := emit_random_noise r w1 in
  let emitted :=
    if Qltb (uniform r) (chance_to_emit (map w))
    then [NoiseEvent.mk (time_ticks w)
                        (vmath.mk (inject_Z (randint_x r)) (inject_Z (randint_y r)))
                        None (5 / 2)]
    else [] in
  (forall v, reset_noise_list v = w1 ->
             tick atan2 degrees agent_tick r v = tick atan2 degrees agent_tick r w) /\
  (old_noises w1 = old_noises w ++ noises w /\ noises w1 = []) /\
  (old_noises w2 = old_noises w ++ noises w /\ noises w2 = emitted) /\
  (old_noises (state_of (tick atan2 degrees agent_tick r w)) = old_noises w ++ noises w /\
   noises (state_of (tick atan2 degrees agent_tick r w)) = emitted) /\
  (forall e, old_noises (add_noise e w) = old_noises w) /\
  (forall m, old_noises (state_of (transmit_message m w)) = old_noises w) /\
  old_noises (state_of (_collision_check w)) = old_noises w /\
  old_noises (fst (_capture_check w)) = old_noises w /\
  old_noises (fst (_target_check w)) = old_noises w /\
  old_noises (emit_random_noise r w) = old_noises w.
Proof.
  cbv zeta.
  assert (E : old_noises (emit_random_noise r (reset_noise_list w)) = old_noises w ++ noises w
              /\ noises (emit_random_noise r (reset_noise_list w))
                 = if Qltb (uniform r) (chance_to_emit (map w))
                   then [NoiseEvent.mk (time_ticks w)
                           (vmath.mk (inject_Z (randint_x r)) (inject_Z (randint_y r)))
                           None (5 / 2)]
                   else []).
  { unfold emit_random_noise. cbn [map reset_noise_list].
    destruct (Qltb (uniform r) (chance_to_emit (map w))); split; reflexivity. }
  split; [|split; [|split; [|split; [|repeat split]]]].
  - intros v H. unfold tick, before_checks, agents_phase. cbv zeta. rewrite H. reflexivity.
  - split; reflexivity.
  - exact E.
  - destruct (tick_frame atan2 degrees agent_tick r w) as (_ & N & O).
    rewrite N, O. exact E.
  - intro m. apply (transmit_message_frame m w).
  - apply (collision_check_frame w).
  - unfold emit_random_noise. destruct (Qltb _ _); reflexivity.
Qed.

(** ** C10 *)

Lemma for_each_Forall {T} (P : T -> Prop) (body : T -> Outcome T unit) (l : list T) :
  (forall a, P a -> P (state_of (body a))) ->
  Forall P l -> Forall P (state_of (for_each body l)).
Proof.
  intros H F. induction F as [|a rest Pa F IH]; cbn.
  - constructor.
  - specialize (H a Pa).
    destruct (body a) as [[] a'|e a']; cbn in H.
    + destruct (for_each body rest) as [[] r|e r]; cbn in IH |- *; constructor; assumption.
    + cbn. constructor; assumption.
Qed.

Lemma corner_snap_class (m : Map) (width px py : Q) (a : Agent) :
  class (state_of (corner_snap m width px py a)) = class a.
Proof.
  unfold corner_snap. destruct (circle_collision m a width px py 0.5) as [e|[c|]]; reflexivity.
Qed.

Lemma bind_class {A B} (o : Outcome Agent A) (k : A -> Agent -> Outcome Agent B) (c : AgentClass) :
  class (state_of o) = c ->
  (forall u s, class s = c -> class (state_of (k u s)) = c) ->
  class (state_of (bind o k)) = c.
Proof.
  intros H K. destruct o as [u s|e s]; cbn in *; [apply K; exact H | exact H].
Qed.

(** Collision resolution moves an agent; it does not change what it is. *)
Lemma resolve_collision_class (m : Map) (a : Agent) :
  class (state_of (resolve_collision m a)) = class a.
Proof.
  unfold resolve_collision. cbv zeta.
  repeat (apply bind_class; [|intros ? ? ?]);
    rewrite corner_snap_class; try assumption; reflexivity.
Qed.

Lemma no_intruders_filter (l : list Agent) :
  filter is_intruder l = [] <-> Forall (fun a => is_intruder a = false) l.
Proof.
  induction l as [|a rest IH]; cbn.
  - split; constructor.
  - destruct (is_intruder a) eqn:E.
    + split; [discriminate | intro F; inversion F; congruence].
    + rewrite IH. split; [intro F; constructor; assumption | intro F; inversion F; assumption].
Qed.

Lemma update_no_intruders (key : AgentID) (f : Agent -> Agent) (l : list Agent) :
  (forall a, is_intruder (f a) = is_intruder a) ->
  Forall (fun a => is_intruder a = false) l ->
  Forall (fun a => is_intruder a = false) (update key f l).
Proof.
  intros H F. induction F as [|a rest Pa F IH]; cbn; [constructor|].
  destruct (Z.eqb (ID a) key); constructor; try assumption.
  rewrite H. exact Pa.
Qed.

Lemma replace_nth_no_intruders (i : nat) (a : Agent) (l : list Agent) :
  is_intruder a = false ->
  Forall (fun b => is_intruder b = false) l ->
  Forall (fun b => is_intruder b = false) (replace_nth i a l).
Proof.
  intros H F. revert i. induction F as [|b rest Pb F IH]; intro i.
  - destruct i; constructor.
  - destruct i; cbn; constructor; auto.
Qed.

Lemma transmit_all_no_intruders (msgs : list Message.t) (w : World) :
  Forall (fun a => is_intruder a = false) (agents w) ->
  Forall (fun a => is_intruder a = false) (agents (state_of (transmit_all msgs w))).
Proof.
  revert w. induction msgs as [|m rest IH]; intros w F; cbn; [exact F|].
  unfold transmit_message.
  destruct (lookup (Message.target m) (agents w)); cbn; [|exact F].
  apply IH. cbn. apply update_no_intruders; [reflexivity | exact F].
Qed.

Section NoIntruders.

Variable atan2 : Q -> Q -> Q.
Variable degrees : Q -> Q.
Variable agent_tick : World -> Agent -> list AgentView -> Agent * list Message.t.

(** The behaviour side does not turn a guard into an intruder. *)
Hypothesis agent_tick_class :
  forall w a seen, is_intruder (fst (agent_tick w a seen)) = is_intruder a.

Lemma run_agent_no_intruders (i : nat) (w : World) :
  Forall (fun a => is_intruder a = false) (agents w) ->
  Forall (fun a => is_intruder a = false)
         (agents (state_of (run_agent atan2 degrees agent_tick i w))).
Proof.
  intro F. unfold run_agent.
  destruct (nth_error (agents w) i) as [a|] eqn:N; [|exact F].
  assert (Pa : is_intruder a = false).
  { apply nth_error_In in N. rewrite Forall_forall in F. exact (F a N). }
  assert (H := agent_tick_class w a (visible_agents atan2 degrees (agents w) a)).
  destruct (agent_tick w a _) as [a' sent]. cbn [fst] in H.
  apply transmit_all_no_intruders. cbn.
  apply replace_nth_no_intruders; [congruence | exact F].
Qed.

Lemma run_agents_no_intruders (rounds : list nat) (w : World) :
  Forall (fun a => is_intruder a = false) (agents w) ->
  Forall (fun a => is_intruder a = false)
         (agents (state_of (run_agents atan2 degrees agent_tick rounds w))).
Proof.
  revert w. induction rounds as [|i rest IH]; intros w F; cbn; [exact F|].
  assert (G := run_agent_no_intruders i w F).
  destruct (run_agent atan2 degrees agent_tick i w) as [[] w'|e w']; cbn in *.
  - apply IH. exact G.
  - exact G.
Qed.

Lemma before_checks_no_intruders (r : Draws) (w : World) :
  intruders w = [] ->
  intruders (state_of (before_checks atan2 degrees agent_tick r w)) = [].
Proof.
  unfold intruders. rewrite !no_intruders_filter. intro F.
  unfold before_checks, agents_phase. cbv zeta.
  assert (F2 : Forall (fun a => is_intruder a = false)
                      (agents (emit_random_noise r (reset_noise_list w)))).
  { unfold emit_random_noise. destruct (Qltb _ _); exact F. }
  assert (G := run_agents_no_intruders
                 (seq 0 (List.length (agents (emit_random_noise r (reset_noise_list w)))))
                 _ F2).
  destruct (run_agents _ _ _ _ _) as [[] w3|e w3]; cbn in *; [|exact G].
  assert (K : Forall (fun a => is_intruder a = false) (agents (state_of (_collision_check w3)))).
  { unfold _collision_check.
    assert (K := for_each_Forall (fun a => is_intruder a = false)
                   (resolve_collision (map w3)) (agents w3)).
    destruct (for_each _ _) as [[] l|e l]; cbn in *; apply K; try exact G;
      intros a Pa; unfold is_intruder; rewrite resolve_collision_class; exact Pa. }
  destruct (_collision_check w3) as [[] w4|e w4]; cbn in *; [|exact K].
  rewrite Forall_forall in K |- *. intros a I.
  apply in_map_iff in I. destruct I as (b & <- & I). exact (K b I).
Qed.

(** C10, amended: in a world without intruders, a call of [tick] that
    reaches the checks (no exception leaves the behaviour code or collision
    resolution) prints "The guards won!" and returns [True], whatever the
    guards, the map and the noise lists are: [all] over no intruders holds.
    A call that does not reach them ends with the exception raised on the
    way. *)
Theorem tick_without_intruders (r : Draws) (w : World) :
  intruders w = [] ->
  match before_checks atan2 degrees agent_tick r w with
  | Returns _ w5 =>
      snd (_capture_check w5) = true /\
      tick atan2 degrees agent_tick r w
      = Returns (["The guards won!"%string], true) (fst (_capture_check w5))
  | Raises e w' => tick atan2 degrees agent_tick r w = Raises e w'
  end.
Proof.
  intro I.
  assert (I5 := before_checks_no_intruders r w I).
  unfold tick.
  destruct (before_checks atan2 degrees agent_tick r w) as [[] w5|e w'];
    [|reflexivity].
  cbn in I5.
  assert (C : snd (_capture_check w5) = true).
  { unfold _capture_check, all_intruders. cbn [snd].
    assert (E : filter is_intruder
                  (List.map (fun a => if is_intruder a
                                      then fold_left capture_pair (guards w5) a else a)
                            (agents w5)) = []).
    { apply no_intruders_filter. unfold intruders in I5.
      apply no_intruders_filter in I5.
      rewrite Forall_forall in I5 |- *. intros a Ia.
      apply in_map_iff in Ia. destruct Ia as (b & <- & Ib).
      rewrite (I5 b Ib). exact (I5 b Ib). }
    rewrite E. reflexivity. }
  split; [exact C|].
  cbn [bind]. unfold checks.
  destruct (_capture_check w5) as [w6 c]. cbn in C. subst c. reflexivity.
Qed.

End NoIntruders.

(** C10, as claimed, fails: [world_centre] has no intruders, and its one
    guard, of width 0.5, stands on the centre of the wall cell (0, 1).  The
    two pushes along each axis cancel, the first corner probe finds the guard
    at distance 0 from the centre of the cell, and resizing the zero vector
    raises [ZeroDivisionError]: the tick does not return. *)
Lemma tick_without_intruders_raises :
  let res := tick atan2_unused degrees_unused idle quiet world_centre in
  intruders world_centre = [] /\
  res = Raises ZeroDivisionError (state_of res).
Proof.
  vm_compute. split; reflexivity.
Qed.

Lemma tick_without_intruders_witness :
  snd (_capture_check
         (state_of (before_checks atan2_unused degrees_unused idle quiet world_clear))) = true /\
  tick atan2_unused degrees_unused idle quiet world_clear
  = Returns (["The guards won!"%string], true)
            (fst (_capture_check
                    (state_of (before_checks atan2_unused degrees_unused idle quiet
                                             world_clear)))).
Proof.
  exact (tick_without_intruders atan2_unused degrees_unused idle
           (fun w a seen => eq_refl) quiet world_clear eq_refl).
Defined.

(** ** When the tick reaches the checks *)

Lemma for_each_total {T} (body : T -> Outcome T unit) (l : list T) :
  (forall a, exists a', body a = Returns tt a') ->
  exists l', for_each body l = Returns tt l'.
Proof.
  intro H. induction l as [|a rest [r' IH]]; cbn.
  - eexists. reflexivity.
  - destruct (H a) as [a' ->]. rewrite IH. eexists. reflexivity.
Qed.

(** Without walls there is nothing to collide with. *)
Lemma collision_check_open (w : World) :
  (forall cx cy, is_wall (map w) cx cy = false) ->
  exists w', _collision_check w = Returns tt w'.
Proof.
  intro H. unfold _collision_check.
  destruct (for_each_total (resolve_collision (map w)) (agents w)) as [l ->].
  - intro a. eexists. apply resolve_collision_clear.
    unfold probes_clear. cbv zeta. rewrite !H. reflexivity.
  - eexists. reflexivity.
Qed.

Section Silent.

Variable atan2 : Q -> Q -> Q.
Variable degrees : Q -> Q.
Variable agent_tick : World -> Agent -> list AgentView -> Agent * list Message.t.

(** The behaviour sends no messages. *)
Hypothesis agent_tick_silent : forall w a seen, snd (agent_tick w a seen) = [].

Lemma run_agents_silent (rounds : list nat) (w : World) :
  exists w', run_agents atan2 degrees agent_tick rounds w = Returns tt w'.
Proof.
  revert w. induction rounds as [|i rest IH]; intro w; cbn.
  - eexists. reflexivity.
  - unfold run_agent at 1. destruct (nth_error (agents w) i) as [a|]; cbn [bind].
    + assert (S := agent_tick_silent w a (visible_agents atan2 degrees (agents w) a)).
      destruct (agent_tick w a _) as [a' sent]. cbn in S. subst sent. cbn. apply IH.
    + apply IH.
Qed.

(** In a map without walls, with behaviours that send nothing, every tick
    reaches the checks. *)
Lemma before_checks_returns (r : Draws) (w : World) :
  (forall cx cy, is_wall (map w) cx cy = false) ->
  exists w5, before_checks atan2 degrees agent_tick r w = Returns tt w5.
Proof.
  intro H. unfold before_checks.
  assert (M := agents_phase_map atan2 degrees agent_tick r w).
  unfold agents_phase in *. cbv zeta in *.
  destruct (run_agents_silent
              (seq 0 (List.length (agents (emit_random_noise r (reset_noise_list w)))))
              (emit_random_noise r (reset_noise_list w))) as [w3 E].
  rewrite E in *. cbn in M. cbn [bind].
  destruct (collision_check_open w3) as [w4 ->].
  - intros cx cy. rewrite M. apply H.
  - cbn. eexists. reflexivity.
Qed.

End Silent.

(** * Further properties of [World] *)

(** ** The agent dictionary *)

Lemma dict_set_lookup (a : Agent) (l : list Agent) :
  lookup (ID a) (dict_set a l) = Some a.
Proof.
  induction l as [|b rest IH]; cbn.
  - rewrite Z.eqb_refl. reflexivity.
  - destruct (Z.eqb (ID b) (ID a)) eqn:E; cbn.
    + rewrite Z.eqb_refl. reflexivity.
    + rewrite E. exact IH.
Qed.

Lemma dict_set_lookup_other (a : Agent) (l : list Agent) (k : AgentID) :
  k <> ID a -> lookup k (dict_set a l) = lookup k l.
Proof.
  intro N. induction l as [|b rest IH]; cbn.
  - destruct (Z.eqb (ID a) k) eqn:E; [apply Z.eqb_eq in E; congruence | reflexivity].
  - destruct (Z.eqb (ID b) (ID a)) eqn:E; cbn.
    + apply Z.eqb_eq in E.
      destruct (Z.eqb (ID a) k) eqn:E1; [apply Z.eqb_eq in E1; congruence|].
      destruct (Z.eqb (ID b) k) eqn:E2; [apply Z.eqb_eq in E2; congruence|].
      reflexivity.
    + destruct (Z.eqb (ID b) k); [reflexivity | exact IH].
Qed.

Lemma dict_set_keys (a : Agent) (l : list Agent) :
  List.map ID (dict_set a l)
  = if existsb (Z.eqb (ID a)) (List.map ID l) then List.map ID l
    else List.map ID l ++ [ID a].
Proof.
  induction l as [|b rest IH]; cbn; [reflexivity|].
  rewrite (Z.eqb_sym (ID a) (ID b)).
  destruct (Z.eqb (ID b) (ID a)) eqn:E; cbn.
  - apply Z.eqb_eq in E. rewrite E. reflexivity.
  - rewrite IH. destruct (existsb _ _); reflexivity.
Qed.

(** X1: [add_agent] stores the agent under its ID: looking the ID up gives
    the agent, every other key gives what it gave before, a key already
    present is overwritten in place, a new key is appended, and unique keys
    stay unique. *)
Theorem add_agent_lookup (a : Agent) (w : World) :
  lookup (ID a) (agents (add_agent a w)) = Some a /\
  (forall k, k <> ID a -> lookup k (agents (add_agent a w)) = lookup k (agents w)) /\
  (In (ID a) (keys w) -> keys (add_agent a w) = keys w) /\
  (~ In (ID a) (keys w) -> keys (add_agent a w) = keys w ++ [ID a]) /\
  (NoDup (keys w) -> NoDup (keys (add_agent a w))).
Proof.
  unfold add_agent, keys. cbn [agents set_agents].
  assert (K := dict_set_keys a (agents w)).
  assert (X : existsb (Z.eqb (ID a)) (List.map ID (agents w)) = true
              <-> In (ID a) (List.map ID (agents w))).
  { rewrite existsb_exists. split.
    - intros (k & I & E). apply Z.eqb_eq in E. subst k. exact I.
    - intro I. exists (ID a). split; [exact I | apply Z.eqb_refl]. }
  assert (P : In (ID a) (List.map ID (agents w)) ->
              List.map ID (dict_set a (agents w)) = List.map ID (agents w)).
  { intro I. apply X in I. rewrite K, I. reflexivity. }
  assert (A : ~ In (ID a) (List.map ID (agents w)) ->
              List.map ID (dict_set a (agents w)) = List.map ID (agents w) ++ [ID a]).
  { intro N. rewrite K. destruct (existsb _ _); [exfalso; apply N, X; reflexivity | reflexivity]. }
  split; [apply dict_set_lookup|]. split; [intros k N; apply dict_set_lookup_other; exact N|].
  split; [exact P|]. split; [exact A|].
  intro D. destruct (in_dec Z.eq_dec (ID a) (List.map ID (agents w))) as [I|N].
  - rewrite (P I). exact D.
  - rewrite (A N). clear - D N.
    induction (List.map ID (agents w)) as [|k rest IH]; cbn.
    + repeat constructor. intros [].
    + inversion D as [|? ? Nk Dr]; subst. constructor.
      * rewrite in_app_iff. intros [I|[E|[]]]; [exact (Nk I) | apply N; left; symmetry; exact E].
      * apply IH; [exact Dr | intro I; apply N; right; exact I].
Qed.

(** ** Messages *)

Lemma update_lookup (key : AgentID) (f : Agent -> Agent) (l : list Agent) (a : Agent) :
  (forall b, ID (f b) = ID b) ->
  lookup key l = Some a ->
  lookup key (update key f l) = Some (f a).
Proof.
  intros F. induction l as [|b rest IH]; cbn; [discriminate|].
  destruct (Z.eqb (ID b) key) eqn:E; cbn.
  - intro H. injection H as ->. rewrite F, E. reflexivity.
  - rewrite E. exact IH.
Qed.

Lemma update_lookup_other (key k : AgentID) (f : Agent -> Agent) (l : list Agent) :
  (forall b, ID (f b) = ID b) ->
  k <> key ->
  lookup k (update key f l) = lookup k l.
Proof.
  intros F N. induction l as [|b rest IH]; cbn; [reflexivity|].
  destruct (Z.eqb (ID b) key) eqn:E; cbn.
  - rewrite F. apply Z.eqb_eq in E.
    destruct (Z.eqb (ID b) k) eqn:E1; [apply Z.eqb_eq in E1; congruence | reflexivity].
  - destruct (Z.eqb (ID b) k); [reflexivity | exact IH].
Qed.

Lemma update_keys (key : AgentID) (f : Agent -> Agent) (l : list Agent) :
  (forall b, ID (f b) = ID b) ->
  List.map ID (update key f l) = List.map ID l.
Proof.
  intro F. induction l as [|b rest IH]; cbn; [reflexivity|].
  destruct (Z.eqb (ID b) key); cbn; [rewrite F; reflexivity | rewrite IH; reflexivity].
Qed.

(** X2: a message whose target is a key of the agent dictionary is appended
    at the end of that agent's inbound queue; the call returns, the keys and
    every other agent stay as they were, and nothing else of the target
    changes. *)
Theorem transmit_message_delivers (message : Message.t) (w : World) (a : Agent) :
  lookup (Message.target message) (agents w) = Some a ->
  exists w',
    transmit_message message w = Returns tt w' /\
    lookup (Message.target message) (agents w')
    = Some (enqueue message a) /\
    _message_queue_in (enqueue message a) = _message_queue_in a ++ [message] /\
    (forall k, k <> Message.target message -> lookup k (agents w') = lookup k (agents w)) /\
    keys w' = keys w.
Proof.
  intro L. unfold transmit_message. rewrite L.
  eexists. split; [reflexivity|]. cbn [agents set_agents]. unfold keys.
  split; [apply update_lookup; [reflexivity | exact L]|].
  split; [reflexivity|].
  split; [intros k N; apply update_lookup_other; [reflexivity | exact N]|].
  apply update_keys. reflexivity.
Qed.

Lemma transmit_message_delivers_witness :
  exists w',
    transmit_message (Message.mk 3 2 "I just turned!") world_patrol = Returns tt w' /\
    lookup 2 (agents w')
    = Some (enqueue (Message.mk 3 2 "I just turned!") (guard_at 2 (vmath.mk 1.5 1.5) 0.2)) /\
    _message_queue_in (enqueue (Message.mk 3 2 "I just turned!")
                               (guard_at 2 (vmath.mk 1.5 1.5) 0.2))
    = _message_queue_in (guard_at 2 (vmath.mk 1.5 1.5) 0.2)
      ++ [Message.mk 3 2 "I just turned!"] /\
    (forall k, k <> 2%Z -> lookup k (agents w') = lookup k (agents world_patrol)) /\
    keys w' = keys world_patrol.
Proof.
  apply (transmit_message_delivers (Message.mk 3 2 "I just turned!") world_patrol
                                   (guard_at 2 (vmath.mk 1.5 1.5) 0.2)).
  reflexivity.
Defined.

(** X3: messages to one agent queue up in the order they were transmitted:
    after [transmit_all] of a list of messages that all go to the key of [a],
    the queue of that agent is its old queue followed by the list. *)
Theorem transmit_all_fifo (msgs : list Message.t) (w : World) (a : Agent) :
  lookup (ID a) (agents w) = Some a ->
  Forall (fun m => Message.target m = ID a) msgs ->
  exists w' a',
    transmit_all msgs w = Returns tt w' /\
    lookup (ID a) (agents w') = Some a' /\
    _message_queue_in a' = _message_queue_in a ++ msgs /\
    keys w' = keys w.
Proof.
  revert w a. induction msgs as [|m rest IH]; intros w a L F.
  - exists w, a. cbn. rewrite app_nil_r. repeat split. exact L.
  - inversion F as [|? ? T Fr]; subst.
    rewrite <- T in L.
    destruct (transmit_message_delivers m w a L) as (w1 & R1 & L1 & _ & _ & K1).
    assert (L1' : lookup (ID (enqueue m a)) (agents w1) = Some (enqueue m a)).
    { cbn [ID enqueue]. rewrite <- T. exact L1. }
    destruct (IH w1 (enqueue m a) L1') as (w' & a' & R & L' & Q & K).
    { cbn [ID enqueue]. exact Fr. }
    exists w', a'. cbn [transmit_all]. rewrite R1. cbn [bind].
    split; [exact R|]. split; [exact L'|].
    split; [rewrite Q; cbn [_message_queue_in enqueue]; rewrite <- app_assoc; reflexivity|].
    congruence.
Qed.

Lemma transmit_all_fifo_witness :
  exists w' a',
    transmit_all [Message.mk 3 2 "one"; Message.mk 3 2 "two"] world_patrol = Returns tt w' /\
    lookup 2 (agents w') = Some a' /\
    _message_queue_in a'
    = _message_queue_in (guard_at 2 (vmath.mk 1.5 1.5) 0.2)
      ++ [Message.mk 3 2 "one"; Message.mk 3 2 "two"] /\
    keys w' = keys world_patrol.
Proof.
  apply (transmit_all_fifo [Message.mk 3 2 "one"; Message.mk 3 2 "two"] world_patrol
                           (guard_at 2 (vmath.mk 1.5 1.5) 0.2)).
  - reflexivity.
  - repeat constructor.
Defined.

(** ** What collision resolution never does *)

Lemma only_moved_refl (a : Agent) : only_moved a a.
Proof. unfold only_moved. repeat split; auto. Qed.

Lemma only_moved_trans (a b c : Agent) : only_moved a b -> only_moved b c -> only_moved a c.
Proof.
  unfold only_moved.
  intros (? & ? & ? & ? & ? & ? & ? & ? & ?) (? & ? & ? & ? & ? & ? & ? & ? & ?).
  repeat split; try congruence. auto.
Qed.

Lemma bounds_check_only_moved (m : Map) (a : Agent) : only_moved a (bounds_check m a).
Proof. unfold only_moved, bounds_check. cbn. repeat split; auto. Qed.

Lemma edge_push_only_moved (m : Map) (a : Agent) : only_moved a (edge_push m a).
Proof.
  unfold only_moved, edge_push. cbv zeta. cbn [ID class heading view_range view_angle _width
    _message_queue_in calls _has_collided set_has_collided set_location].
  repeat split; try reflexivity. intros ->. reflexivity.
Qed.

Lemma corner_snap_only_moved (m : Map) (width px py : Q) (a : Agent) :
  only_moved a (state_of (corner_snap m width px py a)).
Proof.
  unfold corner_snap. destruct (circle_collision m a width px py 0.5) as [e|[c|]]; cbn [state_of].
  - apply only_moved_refl.
  - unfold only_moved. cbn. repeat split; auto. intros ->. reflexivity.
  - apply only_moved_refl.
Qed.

Lemma bind_only_moved {A B} (a : Agent) (o : Outcome Agent A) (k : A -> Agent -> Outcome Agent B) :
  only_moved a (state_of o) ->
  (forall u s, only_moved s (state_of (k u s))) ->
  only_moved a (state_of (bind o k)).
Proof.
  intros H K. destruct o as [u s|e s]; cbn in *; [|exact H].
  exact (only_moved_trans _ _ _ H (K u s)).
Qed.

Lemma resolve_collision_only_moved (m : Map) (a : Agent) :
  only_moved a (state_of (resolve_collision m a)).
Proof.
  unfold resolve_collision. cbv zeta.
  apply (only_moved_trans _ (edge_push m (bounds_check m a))).
  - exact (only_moved_trans _ _ _ (bounds_check_only_moved m a)
                            (edge_push_only_moved m (bounds_check m a))).
  - repeat (apply bind_only_moved; [|intros ? ?]); apply corner_snap_only_moved.
Qed.

Lemma for_each_length {T} (body : T -> Outcome T unit) (l : list T) :
  List.length (state_of (for_each body l)) = List.length l.
Proof.
  induction l as [|a rest IH]; cbn; [reflexivity|].
  destruct (body a) as [[] a'|e a']; cbn; [|reflexivity].
  destruct (for_each body rest) as [[] r|e r]; cbn in *; rewrite IH; reflexivity.
Qed.

(** X4: [_collision_check], whether it returns or raises, keeps every agent
    in its place in the dictionary and changes nothing of it but its location
    and its has-collided flag; it never clears a has-collided flag that was
    set, and it leaves the map, the noise lists and the tick counter alone. *)
Theorem collision_check_only_moves (w : World) :
  List.length (agents (state_of (_collision_check w))) = List.length (agents w) /\
  (forall i a, nth_error (agents w) i = Some a ->
     exists a', nth_error (agents (state_of (_collision_check w))) i = Some a' /\
                only_moved a a') /\
  frame w (state_of (_collision_check w)) /\
  time_ticks (state_of (_collision_check w)) = time_ticks w.
Proof.
  split; [|split; [|split]].
  - unfold _collision_check.
    rewrite <- (for_each_length (resolve_collision (map w)) (agents w)).
    destruct (for_each _ _); reflexivity.
  - intros i a H. destruct (collision_check_nth w i a H) as [E|E].
    + exists a. split; [exact E | apply only_moved_refl].
    + eexists. split; [exact E | apply resolve_collision_only_moved].
  - apply collision_check_frame.
  - unfold _collision_check. destruct (for_each _ _); reflexivity.
Qed.

(** ** Edge pushes *)

(** The x coordinate after the push, from the answers of the left and right
    probes. *)
Lemma edge_push_x (m : Map) (a : Agent) :
  let w := _width a in
  let x := vmath.x (location a) in
  let y := vmath.y (location a) in
  vmath.x (location (edge_push m a)) ==
  x + ((if is_wall m (floor (x - w / 2)) (floor y)
        then inject_Z (floor (x - w / 2)) + 1 + w / 2 - x else 0)
       + (if is_wall m (floor (x + w / 2)) (floor y)
          then inject_Z (floor (x + w / 2)) - w / 2 - x else 0)).
Proof.
  cbv zeta. unfold edge_push, collision_point. cbv zeta.
  destruct (is_wall m (floor (vmath.x (location a) - _width a / 2)) (floor (vmath.y (location a))));
    destruct (is_wall m (floor (vmath.x (location a) + _width a / 2)) (floor (vmath.y (location a))));
    cbn [location set_location set_has_collided vmath.x vmath.y vmath.add]; field.
Qed.







(** X7: when the left and the right probe of an agent are in the same wall
    cell, the two pushes add up to a reflection: the agent ends at the mirror
    image of its x coordinate in the cell's centre line, its footprint still
    overlapping the cell's column. *)
Theorem edge_push_mirrors (m : Map) (a : Agent) (c : Z) :
  let w := _width a in
  let x := vmath.x (location a) in
  let y := vmath.y (location a) in
  floor (x - w / 2) = c -> floor (x + w / 2) = c ->
  is_wall m c (floor y) = true ->
  vmath.x (location (edge_push m a)) - (inject_Z c + 0.5) == - (x - (inject_Z c + 0.5)) /\
  inject_Z c < vmath.x (location (edge_push m a)) + w / 2 /\
  vmath.x (location (edge_push m a)) - w / 2 <= inject_Z c + 1.
Proof.
  cbv zeta. intros Fl Fr Wl.
  assert (X := edge_push_x m a). cbv zeta in X. rewrite Fl, Fr, Wl in X.
  assert (X' : vmath.x (location (edge_push m a)) == 2 * inject_Z c + 1 - vmath.x (location a))
    by (rewrite X; ring).
  assert (U1 := Qlt_floor (vmath.x (location a) - _width a / 2)).
  assert (L2 := Qfloor_le (vmath.x (location a) + _width a / 2)).
  unfold floor in Fl, Fr. rewrite Fl in U1. rewrite Fr in L2.
  rewrite inject_Z_plus in U1. change (inject_Z 1) with 1 in U1.
  split; [rewrite X'; ring|]. split; rewrite X'; lra.
Qed.

Lemma edge_push_mirrors_witness :
  let a := guard_at 1 (vmath.mk 0.7 1.5) 0.2 in
  let w := _width a in
  let x := vmath.x (location a) in
  vmath.x (location (edge_push map3 a)) - (inject_Z 0 + 0.5) == - (x - (inject_Z 0 + 0.5)) /\
  inject_Z 0 < vmath.x (location (edge_push map3 a)) + w / 2 /\
  vmath.x (location (edge_push map3 a)) - w / 2 <= inject_Z 0 + 1.
Proof.
  apply (edge_push_mirrors map3 (guard_at 1 (vmath.mk 0.7 1.5) 0.2) 0); reflexivity.
Defined.

(** ** The capture check *)

Lemma fold_capture_pairs (gs : list Agent) :
  forall (a : Agent) (s : IntruderState),
    class a = IntruderAgent s ->
    class (fold_left capture_pair gs a)
    = IntruderAgent (if existsb (in_reach a) gs then set_is_captured true s else s) /\
    calls (fold_left capture_pair gs a)
    = calls a ++ repeat on_captured (List.length (filter (in_reach a) gs)) /\
    ID (fold_left capture_pair gs a) = ID a /\
    location (fold_left capture_pair gs a) = location a /\
    _message_queue_in (fold_left capture_pair gs a) = _message_queue_in a.
Proof.
  induction gs as [|g rest IH]; intros a s C.
  - cbn. rewrite app_nil_r. repeat split. exact C.
  - cbn [fold_left existsb filter].
    assert (U : capture_pair a g
                = if in_reach a g
                  then notify on_captured (set_class (IntruderAgent (set_is_captured true s)) a)
                  else a).
    { unfold capture_pair, in_reach. rewrite C. reflexivity. }
    rewrite U. destruct (in_reach a g) eqn:R.
    + destruct (IH (notify on_captured (set_class (IntruderAgent (set_is_captured true s)) a))
                   (set_is_captured true s) eq_refl) as (C' & K' & I' & L' & Q').
      change (in_reach (notify on_captured
                (set_class (IntruderAgent (set_is_captured true s)) a)))
        with (in_reach a) in *.
      rewrite C', K', I', L', Q'. cbn [orb List.length repeat].
      split; [destruct (existsb (in_reach a) rest); reflexivity|].
      split; [|repeat split].
      cbn [calls notify set_class]. rewrite <- app_assoc. reflexivity.
    + cbn [orb]. apply IH. exact C.
Qed.

Lemma capture_check_nth (w : World) (i : nat) :
  nth_error (agents (fst (_capture_check w))) i
  = option_map (fun a => if is_intruder a then fold_left capture_pair (guards w) a else a)
               (nth_error (agents w) i).
Proof.
  unfold _capture_check. cbn [fst agents set_agents]. apply nth_error_map.
Qed.

(** X8: after [_capture_check] an intruder is captured exactly if it was
    captured before or some guard is at a distance below 0.5; it has received
    one [on_captured] call per guard within that distance, whether it was
    captured already or not; its position, inbound queue and target
    bookkeeping are untouched, and guards are not changed at all. *)
Theorem capture_check_intruder (w : World) (i : nat) (a : Agent) :
  nth_error (agents w) i = Some a ->
  match class a with
  | GuardAgent => nth_error (agents (fst (_capture_check w))) i = Some a
  | IntruderAgent s =>
      exists a' s',
        nth_error (agents (fst (_capture_check w))) i = Some a' /\
        class a' = IntruderAgent s' /\
        is_captured s' = is_captured s || existsb (in_reach a) (guards w) /\
        calls a'
        = calls a ++ repeat on_captured (List.length (filter (in_reach a) (guards w))) /\
        target_state a' = target_state a /\ target s' = target s /\
        ID a' = ID a /\ location a' = location a /\
        _message_queue_in a' = _message_queue_in a
  end.
Proof.
  intro H. assert (N := capture_check_nth w i). rewrite H in N. cbn [option_map] in N.
  destruct (class a) as [|s] eqn:C.
  - unfold is_intruder in N. rewrite C in N. exact N.
  - unfold is_intruder in N. rewrite C in N.
    destruct (fold_capture_pairs (guards w) a s C) as (C' & K' & I' & L' & Q').
    eexists. eexists. split; [exact N|]. split; [exact C'|].
    split; [|split; [exact K'|split; [|split; [|repeat split; assumption]]]].
    + destruct (existsb (in_reach a) (guards w)); cbn.
      * symmetry. apply orb_true_r.
      * symmetry. apply orb_false_r.
    + unfold target_state. rewrite C', C.
      destruct (existsb (in_reach a) (guards w)); reflexivity.
    + destruct (existsb (in_reach a) (guards w)); reflexivity.
Qed.

Lemma capture_check_intruder_witness :
  match class (intruder_at 1 (vmath.mk 1.5 1.5) (vmath.mk 2.5 0.5) 0.2) with
  | GuardAgent =>
      nth_error (agents (fst (_capture_check world_two_guards))) 0
      = Some (intruder_at 1 (vmath.mk 1.5 1.5) (vmath.mk 2.5 0.5) 0.2)
  | IntruderAgent s =>
      exists a' s',
        nth_error (agents (fst (_capture_check world_two_guards))) 0 = Some a' /\
        class a' = IntruderAgent s' /\
        is_captured s'
        = is_captured s
          || existsb (in_reach (intruder_at 1 (vmath.mk 1.5 1.5) (vmath.mk 2.5 0.5) 0.2))
                     (guards world_two_guards) /\
        calls a'
        = calls (intruder_at 1 (vmath.mk 1.5 1.5) (vmath.mk 2.5 0.5) 0.2)
          ++ repeat on_captured
               (List.length
                  (filter (in_reach (intruder_at 1 (vmath.mk 1.5 1.5) (vmath.mk 2.5 0.5) 0.2))
                          (guards world_two_guards))) /\
        target_state a'
        = target_state (intruder_at 1 (vmath.mk 1.5 1.5) (vmath.mk 2.5 0.5) 0.2) /\
        target s' = target s /\
        ID a' = ID (intruder_at 1 (vmath.mk 1.5 1.5) (vmath.mk 2.5 0.5) 0.2) /\
        location a' = location (intruder_at 1 (vmath.mk 1.5 1.5) (vmath.mk 2.5 0.5) 0.2) /\
        _message_queue_in a'
        = _message_queue_in (intruder_at 1 (vmath.mk 1.5 1.5) (vmath.mk 2.5 0.5) 0.2)
  end.
Proof.
  apply (capture_check_intruder world_two_guards 0
           (intruder_at 1 (vmath.mk 1.5 1.5) (vmath.mk 2.5 0.5) 0.2)).
  reflexivity.
Defined.

(** X9: [_capture_check] returns [True] exactly when every intruder of the
    world was captured before or has a guard at a distance below 0.5; in a
    world without guards that is when every intruder was captured before. *)
Theorem capture_check_returns (w : World) :
  snd (_capture_check w)
  = forallb (fun a => match class a with
                      | GuardAgent => true
                      | IntruderAgent s => is_captured s || existsb (in_reach a) (guards w)
                      end) (agents w) /\
  (guards w = [] -> snd (_capture_check w) = all_intruders is_captured (agents w)).
Proof.
  assert (G : forall gs l,
             all_intruders is_captured
               (List.map (fun a => if is_intruder a then fold_left capture_pair gs a else a) l)
             = forallb (fun a => match class a with
                                 | GuardAgent => true
                                 | IntruderAgent s => is_captured s || existsb (in_reach a) gs
                                 end) l).
  { intros gs l. unfold all_intruders. induction l as [|a rest IH]; [reflexivity|].
    cbn [List.map forallb].
    destruct (class a) as [|s] eqn:C.
    - assert (Ia : is_intruder a = false) by (unfold is_intruder; rewrite C; reflexivity).
      rewrite Ia. cbn [filter]. rewrite Ia. exact IH.
    - assert (Ia : is_intruder a = true) by (unfold is_intruder; rewrite C; reflexivity).
      destruct (fold_capture_pairs gs a s C) as (C' & _).
      assert (Ia' : is_intruder (fold_left capture_pair gs a) = true)
        by (unfold is_intruder; rewrite C'; reflexivity).
      rewrite Ia. cbn [filter]. rewrite Ia'. cbn [forallb]. rewrite C', IH. f_equal.
      destruct (existsb (in_reach a) gs); cbn;
        [symmetry; apply orb_true_r | symmetry; apply orb_false_r]. }
  split.
  - unfold _capture_check. cbn [snd]. apply G.
  - intro E. unfold _capture_check. cbn [snd]. rewrite G, E.
    unfold all_intruders. cbn [existsb].
    induction (agents w) as [|a rest IH]; [reflexivity|].
    cbn [forallb filter].
    destruct (class a) as [|s] eqn:C.
    + assert (Ia : is_intruder a = false) by (unfold is_intruder; rewrite C; reflexivity).
      rewrite Ia. exact IH.
    + assert (Ia : is_intruder a = true) by (unfold is_intruder; rewrite C; reflexivity).
      rewrite Ia. cbn [forallb]. rewrite C, orb_false_r, IH. reflexivity.
Qed.

(** ** The target check: invariants and the two-visit rule *)


(** Linear facts about the counters, one conjunct at a time. *)
Ltac counters :=
  repeat split; intros;
  first [ lra | discriminate | reflexivity | left; lra | right; lra | exfalso; lra ].

(** One run of the loop body, in terms of the counters of the tick. *)
Lemma target_update_step (a : Agent) (s : IntruderState) :
  class a = IntruderAgent s ->
  let s1 := target_counters (inside_target (location a) s) s in
  let dwell := Qle_bool 3 (ticks_in_target s1 * TIME_PER_TICK) in
  exists s',
    class (target_update a) = IntruderAgent s' /\
    ticks_in_target s' = ticks_in_target s1 /\
    ticks_since_target s' = ticks_since_target s1 /\
    times_visited_target s' = times_visited_target s1 /\
    target s' = target s /\
    reached_target s' = dwell || Qle_bool 2 (times_visited_target s1) || reached_target s /\
    calls (target_update a) = calls a ++ (if dwell then [on_reached_target] else []).
Proof.
  intros C s1 dwell. rewrite (target_update_unfold a s C). cbv zeta. fold s1. fold dwell.
  destruct dwell.
  - eexists. split; [reflexivity|]. projections.
    unfold s1. rewrite target_counters_target. repeat split.
  - destruct (Qle_bool 2 (times_visited_target s1)).
    + eexists. split; [reflexivity|]. projections.
      unfold s1. rewrite target_counters_target, app_nil_r. repeat split.
    + eexists. split; [reflexivity|]. projections.
      unfold s1. rewrite target_counters_target, target_counters_reached, app_nil_r.
      repeat split.
Qed.

Lemma target_counters_ok (inside : bool) (s : IntruderState) :
  counters_ok s ->
  counters_ok (target_counters inside s) /\
  (inside = true <-> 0 < ticks_in_target (target_counters inside s)) /\
  times_visited_target s <= times_visited_target (target_counters inside s) /\
  times_visited_target (target_counters inside s) <= times_visited_target s + 1.
Proof.
  intros (I & S & V & X). unfold counters_ok, target_counters. destruct inside.
  - destruct (Qeq_bool (ticks_in_target s) 0) eqn:E.
    + apply Qeq_bool_iff in E. destruct (_ || _); projections; counters.
    + assert (P : 0 < ticks_in_target s).
      { destruct (Qlt_le_dec 0 (ticks_in_target s)) as [H|H]; [exact H|].
        exfalso. assert (Z : ticks_in_target s == 0) by lra.
        apply Qeq_bool_iff in Z. congruence. }
      projections. destruct X as [X|X]; counters.
  - destruct (Qltb 0 (ticks_in_target s)) eqn:E.
    + apply Qltb_lt in E. projections. counters.
    + apply Qltb_ge in E.
      destruct (Qltb 0 (ticks_since_target s)) eqn:E2; projections.
      * apply Qltb_lt in E2. counters.
      * apply Qltb_ge in E2. counters.
Qed.

(** X10: the loop body of [_target_check] keeps the counters of an intruder
    non-negative and never has [ticks_in_target] and [ticks_since_target]
    both running; after it, [ticks_in_target] is positive exactly if the
    intruder is within 0.5 of its target; [times_visited_target] grows by at
    most one and never shrinks; and [reached_target], once set, stays set. *)
Theorem target_update_invariant (a : Agent) (s : IntruderState) :
  class a = IntruderAgent s ->
  counters_ok s ->
  exists s',
    class (target_update a) = IntruderAgent s' /\
    counters_ok s' /\
    (inside_target (location a) s = true <-> 0 < ticks_in_target s') /\
    times_visited_target s <= times_visited_target s' /\
    times_visited_target s' <= times_visited_target s + 1 /\
    (reached_target s = true -> reached_target s' = true) /\
    target s' = target s.
Proof.
  intros C K.
  destruct (target_update_step a s C) as (s' & C' & I & S & V & T & R & _).
  destruct (target_counters_ok (inside_target (location a) s) s K) as (K1 & B & V1 & V2).
  exists s'. split; [exact C'|]. unfold counters_ok. rewrite I, S, V.
  split; [exact K1|]. split; [exact B|]. split; [exact V1|]. split; [exact V2|].
  split; [|exact T]. intro H. rewrite R, H. apply orb_true_r.
Qed.

Lemma target_update_invariant_witness :
  exists s',
    class (target_update returning) = IntruderAgent s' /\
    counters_ok s' /\
    (inside_target (location returning) (mkIntruder on_target false false 0 80 1) = true
     <-> 0 < ticks_in_target s') /\
    times_visited_target (mkIntruder on_target false false 0 80 1) <= times_visited_target s' /\
    times_visited_target s' <= times_visited_target (mkIntruder on_target false false 0 80 1) + 1 /\
    (reached_target (mkIntruder on_target false false 0 80 1) = true ->
     reached_target s' = true) /\
    target s' = target (mkIntruder on_target false false 0 80 1).
Proof.
  apply (target_update_invariant returning (mkIntruder on_target false false 0 80 1)).
  - reflexivity.
  - unfold counters_ok, Qle. cbn. repeat split; try lia. left. reflexivity.
Defined.















(** ** The tick counter and the outcome of a tick *)

Lemma transmit_all_time (msgs : list Message.t) (w : World) :
  time_ticks (state_of (transmit_all msgs w)) = time_ticks w.
Proof.
  revert w. induction msgs as [|m rest IH]; intro w; cbn; [reflexivity|].
  unfold transmit_message. destruct (lookup _ _); cbn; [|reflexivity].
  rewrite IH. reflexivity.
Qed.

Lemma collision_check_time (w : World) :
  time_ticks (state_of (_collision_check w)) = time_ticks w.
Proof.
  unfold _collision_check. destruct (for_each _ _); reflexivity.
Qed.

Section TickCounter.

Variable atan2 : Q -> Q -> Q.
Variable degrees : Q -> Q.
Variable agent_tick : World -> Agent -> list AgentView -> Agent * list Message.t.

Lemma run_agents_time (rounds : list nat) (w : World) :
  time_ticks (state_of (run_agents atan2 degrees agent_tick rounds w)) = time_ticks w.
Proof.
  revert w. induction rounds as [|i rest IH]; intro w; cbn; [reflexivity|].
  assert (H : time_ticks (state_of (run_agent atan2 degrees agent_tick i w)) = time_ticks w).
  { unfold run_agent. destruct (nth_error (agents w) i) as [a|]; [|reflexivity].
    destruct (agent_tick w a _) as [a' sent]. rewrite transmit_all_time. reflexivity. }
  destruct (run_agent atan2 degrees agent_tick i w) as [[] w'|e w']; cbn in *.
  - rewrite IH. exact H.
  - exact H.
Qed.

Lemma before_checks_time (r : Draws) (w : World) :
  time_ticks (state_of (before_checks atan2 degrees agent_tick r w)) = time_ticks w.
Proof.
  unfold before_checks, agents_phase. cbv zeta.
  assert (H := run_agents_time
                 (seq 0 (List.length (agents (emit_random_noise r (reset_noise_list w)))))
                 (emit_random_noise r (reset_noise_list w))).
  assert (E : time_ticks (emit_random_noise r (reset_noise_list w)) = time_ticks w).
  { unfold emit_random_noise. destruct (Qltb _ _); reflexivity. }
  rewrite E in H.
  destruct (run_agents _ _ _ _ _) as [[] w3|e w3]; cbn in *; [|exact H].
  assert (G := collision_check_time w3).
  destruct (_collision_check w3) as [[] w4|e w4]; cbn in *; congruence.
Qed.

(** X12: a call of [tick] that returns [False] has printed nothing and has
    advanced the tick counter by one; a call that returns [True] has printed
    "The guards won!" or "The intruders won!" and has left the counter as it
    was, and so has a call that raised.  The value returned is the result of
    the capture check or, failing that, of the target check, and the intruders
    are announced only when the capture check failed. *)
Theorem tick_outcome (r : Draws) (w : World) :
  match tick atan2 degrees agent_tick r w with
  | Returns (printed, result) w' =>
      (result = false -> printed = [] /\ time_ticks w' = (time_ticks w + 1)%Z) /\
      (result = true ->
       (printed = ["The guards won!"%string] \/ printed = ["The intruders won!"%string]) /\
       time_ticks w' = time_ticks w)
  | Raises _ w' => time_ticks w' = time_ticks w
  end /\
  (forall w5, before_checks atan2 degrees agent_tick r w = Returns tt w5 ->
     let captured := snd (_capture_check w5) in
     let reached := snd (_target_check (fst (_capture_check w5))) in
     exists printed w',
       tick atan2 degrees agent_tick r w = Returns (printed, captured || reached) w' /\
       (printed = ["The guards won!"%string] <-> captured = true) /\
       (printed = ["The intruders won!"%string] <-> captured = false /\ reached = true)).
Proof.
  assert (T := before_checks_time r w). split.
  - unfold tick. destruct (before_checks atan2 degrees agent_tick r w) as [[] w5|e w5];
      cbn [bind state_of] in *; [|exact T].
    unfold checks. destruct (_capture_check w5) as [w6 c] eqn:E6.
    assert (T6 : time_ticks w6 = time_ticks w5).
    { replace w6 with (fst (_capture_check w5)) by (rewrite E6; reflexivity). reflexivity. }
    destruct c.
    + split; [discriminate|]. intros _. split; [left; reflexivity | congruence].
    + destruct (_target_check w6) as [w7 t] eqn:E7.
      assert (T7 : time_ticks w7 = time_ticks w6).
      { replace w7 with (fst (_target_check w6)) by (rewrite E7; reflexivity). reflexivity. }
      destruct t.
      * split; [discriminate|]. intros _. split; [right; reflexivity | congruence].
      * split; [|discriminate]. intros _. split; [reflexivity|]. cbn. congruence.
  - intros w5 B. cbv zeta. unfold tick. rewrite B. cbn [bind]. unfold checks.
    destruct (_capture_check w5) as [w6 c]. cbn [fst snd].
    destruct c.
    + eexists. eexists. split; [reflexivity|]. split; [tauto|].
      split; [discriminate | intros [? _]; discriminate].
    + destruct (_target_check w6) as [w7 t]. cbn [snd]. destruct t.
      * eexists. eexists. split; [reflexivity|]. split; [split; discriminate|]. tauto.
      * eexists. eexists. split; [reflexivity|]. split; [split; discriminate|].
        split; [discriminate | intros [_ ?]; discriminate].
Qed.

Lemma tick_time_steps (r : Draws) (w : World) :
  time_ticks (state_of (tick atan2 degrees agent_tick r w)) = time_ticks w \/
  time_ticks (state_of (tick atan2 degrees agent_tick r w)) = (time_ticks w + 1)%Z.
Proof.
  assert (T := before_checks_time r w).
  unfold tick. destruct (before_checks atan2 degrees agent_tick r w) as [[] w5|e w5];
    cbn [bind state_of] in *; [|left; exact T].
  unfold checks. destruct (_capture_check w5) as [w6 c] eqn:E6.
  assert (T6 : time_ticks w6 = time_ticks w5).
  { replace w6 with (fst (_capture_check w5)) by (rewrite E6; reflexivity). reflexivity. }
  destruct c; [left; cbn; congruence|].
  destruct (_target_check w6) as [w7 t] eqn:E7.
  assert (T7 : time_ticks w7 = time_ticks w6).
  { replace w7 with (fst (_target_check w6)) by (rewrite E7; reflexivity). reflexivity. }
  destruct t; [left | right]; cbn; congruence.
Qed.

End TickCounter.

(** ** Noise time stamps *)

Lemma emit_after_reset (r : Draws) (w : World) :
  old_noises (emit_random_noise r (reset_noise_list w)) = old_noises w ++ noises w /\
  Forall (fun e => NoiseEvent.time e = time_ticks w)
         (noises (emit_random_noise r (reset_noise_list w))).
Proof.
  unfold emit_random_noise. cbn [map reset_noise_list].
  destruct (Qltb (uniform r) (chance_to_emit (map w))); split; try reflexivity.
  - repeat constructor.
  - constructor.
Qed.

(** X13: every noise event carries the tick at which it was added, so the
    time stamps never run ahead of the tick counter: that holds in a new
    world, and a tick, returned or raised, keeps it, as does [add_noise]. *)
Theorem noise_times_invariant (atan2 : Q -> Q -> Q) (degrees : Q -> Q)
    (agent_tick : World -> Agent -> list AgentView -> Agent * list Message.t)
    (r : Draws) (w : World) :
  (forall m, noise_times_ok (World_init m)) /\
  (noise_times_ok w -> noise_times_ok (state_of (tick atan2 degrees agent_tick r w))) /\
  (forall e, noise_times_ok w -> noise_times_ok (add_noise e w)).
Proof.
  split; [|split].
  - intro m. constructor.
  - unfold noise_times_ok. intro H.
    destruct (tick_frame atan2 degrees agent_tick r w) as (_ & N & O).
    destruct (emit_after_reset r w) as [EO EN].
    rewrite N, O, EO.
    assert (T := tick_time_steps atan2 degrees agent_tick r w).
    apply Forall_app in H. destruct H as [Hn Ho].
    apply Forall_app. split; [|apply Forall_app; split].
    + apply (Forall_impl _ (P := fun e => NoiseEvent.time e = time_ticks w)); [|exact EN].
      intros e E. lia.
    + apply (Forall_impl _ (P := fun e => (NoiseEvent.time e <= time_ticks w)%Z)); [|exact Ho].
      intros e E. lia.
    + apply (Forall_impl _ (P := fun e => (NoiseEvent.time e <= time_ticks w)%Z)); [|exact Hn].
      intros e E. lia.
  - intros e H. unfold noise_times_ok, add_noise in *. cbn [noises old_noises set_noises time_ticks].
    apply Forall_app in H. destruct H as [Hn Ho].
    apply Forall_app. split; [apply Forall_app; split|]; try assumption.
    repeat constructor. cbn. lia.
Qed.

Lemma chance_to_emit_area (m : Map) :
  chance_to_emit m == inject_Z (fst (size m) * snd (size m)) / 3000.
Proof.
  unfold chance_to_emit, TIME_PER_TICK, TICK_RATE. cbv zeta.
  rewrite inject_Z_mult. field.
Qed.

(** X14: the chance of an ambient noise per tick is the number of map cells
    divided by 3000.  With a draw in [0, 1), a map without cells never emits
    and the world stays as it is; a map of 3000 cells or more emits on every
    tick; and an emission appends one event, at the cell drawn and stamped
    with the tick counter, to the current noise list. *)
Theorem emit_random_noise_chance (r : Draws) (w : World) :
  0 <= uniform r -> uniform r < 1 ->
  let cells := (fst (size (map w)) * snd (size (map w)))%Z in
  let event := NoiseEvent.mk (time_ticks w)
                 (vmath.mk (inject_Z (randint_x r)) (inject_Z (randint_y r))) None (5 / 2) in
  chance_to_emit (map w) == inject_Z cells / 3000 /\
  ((cells <= 0)%Z -> emit_random_noise r w = w) /\
  ((3000 <= cells)%Z -> emit_random_noise r w = set_noises (noises w ++ [event]) w) /\
  (emit_random_noise r w = w \/ emit_random_noise r w = set_noises (noises w ++ [event]) w).
Proof.
  intros U0 U1. cbv zeta.
  assert (A := chance_to_emit_area (map w)).
  split; [exact A|]. unfold emit_random_noise. split; [|split].
  - intro Z. assert (Qz : inject_Z (fst (size (map w)) * snd (size (map w))) <= 0).
    { change 0 with (inject_Z 0). rewrite <- Zle_Qle. exact Z. }
    assert (E : Qltb (uniform r) (chance_to_emit (map w)) = false).
    { apply Qltb_ge. rewrite A.
      apply Qle_trans with 0; [|exact U0].
      apply Qle_shift_div_r; [reflexivity | lra]. }
    rewrite E. reflexivity.
  - intro Z. assert (Qz : 3000 <= inject_Z (fst (size (map w)) * snd (size (map w)))).
    { change 3000 with (inject_Z 3000). rewrite <- Zle_Qle. exact Z. }
    assert (E : Qltb (uniform r) (chance_to_emit (map w)) = true).
    { apply Qltb_lt. rewrite A.
      apply Qlt_le_trans with 1; [exact U1|].
      apply Qle_shift_div_l; [reflexivity | lra]. }
    rewrite E. reflexivity.
  - destruct (Qltb _ _); [right | left]; reflexivity.
Qed.

Lemma emit_random_noise_chance_witness :
  let cells := (fst (size (map world_clear)) * snd (size (map world_clear)))%Z in
  let event := NoiseEvent.mk (time_ticks world_clear)
                 (vmath.mk (inject_Z (randint_x (mkDraws 0.5 1 2)))
                           (inject_Z (randint_y (mkDraws 0.5 1 2)))) None (5 / 2) in
  chance_to_emit (map world_clear) == inject_Z cells / 3000 /\
  ((cells <= 0)%Z -> emit_random_noise (mkDraws 0.5 1 2) world_clear = world_clear) /\
  ((3000 <= cells)%Z ->
   emit_random_noise (mkDraws 0.5 1 2) world_clear
   = set_noises (noises world_clear ++ [event]) world_clear) /\
  (emit_random_noise (mkDraws 0.5 1 2) world_clear = world_clear \/
   emit_random_noise (mkDraws 0.5 1 2) world_clear
   = set_noises (noises world_clear ++ [event]) world_clear).
Proof.
  apply (emit_random_noise_chance (mkDraws 0.5 1 2) world_clear).
  - unfold Qle. cbn. lia.
  - unfold Qlt. cbn. lia.
Defined.

(** * [ai/agents.py] *)

(** X15: the start position that [SimpleGuard] and [PathfindingIntruder]
    pick is within [0, width) x [0, height) of a map with at least one cell
    each way, for whatever [random.random()] returns in [0, 1); the bounds
    check of collision resolution leaves it where it is.  (Nothing keeps it
    out of a wall cell.) *)
Theorem on_pick_start_in_bounds (m : Map) (r1 r2 : Q) (a : Agent) :
  0 <= r1 -> r1 < 1 -> 0 <= r2 -> r2 < 1 ->
  (1 <= width m)%Z -> (1 <= height m)%Z ->
  let p := vmath.mk (fst (on_pick_start m r1 r2)) (snd (on_pick_start m r1 r2)) in
  in_bounds m p /\ location (bounds_check m (set_location p a)) = p.
Proof.
  intros A1 B1 A2 B2 HW HH. cbv zeta.
  assert (QW : 1 <= inject_Z (width m)) by (change 1 with (inject_Z 1); rewrite <- Zle_Qle; exact HW).
  assert (QH : 1 <= inject_Z (height m)) by (change 1 with (inject_Z 1); rewrite <- Zle_Qle; exact HH).
  assert (I : in_bounds m (vmath.mk (fst (on_pick_start m r1 r2)) (snd (on_pick_start m r1 r2)))).
  { unfold in_bounds, on_pick_start. cbn [fst snd vmath.x vmath.y]. repeat split; nra. }
  split; [exact I|].
  rewrite (bounds_check_inside m (set_location _ a) I). reflexivity.
Qed.

Lemma on_pick_start_in_bounds_witness :
  let p := vmath.mk (fst (on_pick_start map3 0.5 0.25)) (snd (on_pick_start map3 0.5 0.25)) in
  in_bounds map3 p /\
  location (bounds_check map3 (set_location p (guard_at 1 on_target 0.2))) = p.
Proof.
  apply (on_pick_start_in_bounds map3 0.5 0.25 (guard_at 1 on_target 0.2));
    try (unfold Qle, Qlt; cbn; lia).
Defined.

(** * [gui/renderer.py] *)

(** ** The viewport *)







(** ** From the screen to the map *)

Lemma interp_between (x x0 x1 f0 f1 : Q) :
  x0 < x1 -> f0 <= f1 ->
  f0 <= interp x x0 x1 f0 f1 /\ interp x x0 x1 f0 f1 <= f1.
Proof.
  intros X F. unfold interp.
  destruct (Qle_bool x x0) eqn:A; [lra|]. apply Qle_bool_gt in A.
  destruct (Qle_bool x1 x) eqn:B; [lra|]. apply Qle_bool_gt in B.
  set (t := (x - x0) / (x1 - x0)).
  assert (T0 : 0 <= t) by (apply Qle_shift_div_l; lra).
  assert (T1 : t <= 1) by (apply Qle_shift_div_r; lra).
  assert (E : (f1 - f0) / (x1 - x0) * (x - x0) + f0 == (f1 - f0) * t + f0)
    by (unfold t; field; lra).
  rewrite E. split; nra.
Qed.

Lemma interp_ends (x0 x1 f0 f1 : Q) :
  x0 < x1 -> interp x0 x0 x1 f0 f1 = f0 /\ interp x1 x0 x1 f0 f1 = f1.
Proof.
  intro X. unfold interp.
  assert (A : Qle_bool x0 x0 = true) by (apply Qle_bool_iff; lra).
  assert (B : Qle_bool x1 x0 = false) by (apply Qle_bool_gt; exact X).
  assert (C : Qle_bool x1 x1 = true) by (apply Qle_bool_iff; lra).
  rewrite A, B, C. split; reflexivity.
Qed.

Lemma interp_monotone (x x' x0 x1 f0 f1 : Q) :
  x0 < x1 -> f0 <= f1 -> x <= x' ->
  interp x x0 x1 f0 f1 <= interp x' x0 x1 f0 f1.
Proof.
  intros X F L.
  destruct (interp_between x x0 x1 f0 f1 X F) as [Lx Ux].
  destruct (interp_between x' x0 x1 f0 f1 X F) as [Lx' Ux'].
  unfold interp in *.
  destruct (Qle_bool x x0) eqn:A; [exact Lx'|]. apply Qle_bool_gt in A.
  destruct (Qle_bool x' x0) eqn:A'; [apply Qle_bool_iff in A'; lra|].
  destruct (Qle_bool x1 x') eqn:B'; [exact Ux|]. apply Qle_bool_gt in B'.
  destruct (Qle_bool x1 x) eqn:B; [apply Qle_bool_iff in B; lra|].
  assert (S : 0 <= (f1 - f0) / (x1 - x0)) by (apply Qle_shift_div_l; lra).
  nra.
Qed.

Lemma truncate_toward_zero (v : Q) :
  Qabs (inject_Z (truncate v)) <= Qabs v /\ Qabs (v - inject_Z (truncate v)) < 1.
Proof.
  unfold truncate. destruct (Qltb v 0) eqn:E.
  - apply Qltb_lt in E.
    assert (L := Qfloor_le (- v)). assert (U := Qlt_floor (- v)).
    rewrite inject_Z_plus in U. change (inject_Z 1) with 1 in U.
    rewrite inject_Z_opp.
    assert (P : 0 <= inject_Z (Qfloor (- v))).
    { change 0 with (inject_Z 0). rewrite <- Zle_Qle.
      apply Z.lt_succ_r. rewrite Zlt_Qlt. unfold Z.succ. rewrite inject_Z_plus.
      change (inject_Z 0) with 0. change (inject_Z 1) with 1. lra. }
    split.
    + rewrite (Qabs_neg v) by lra. rewrite Qabs_neg by lra. lra.
    + apply Qabs_Qlt_condition. split; lra.
  - apply Qltb_ge in E.
    assert (L := Qfloor_le v). assert (U := Qlt_floor v).
    rewrite inject_Z_plus in U. change (inject_Z 1) with 1 in U.
    assert (P : 0 <= inject_Z (Qfloor v)).
    { change 0 with (inject_Z 0). rewrite <- Zle_Qle.
      apply Z.lt_succ_r. rewrite Zlt_Qlt. unfold Z.succ. rewrite inject_Z_plus.
      change (inject_Z 0) with 0. change (inject_Z 1) with 1. lra. }
    split.
    + rewrite (Qabs_pos v) by lra. rewrite Qabs_pos by lra. lra.
    + apply Qabs_Qlt_condition. split; lra.
Qed.

Lemma truncate_small (v : Q) : -1 < v -> v < 1 -> truncate v = 0%Z.
Proof.
  intros L U. destruct (truncate_toward_zero v) as [A _].
  assert (B : Qabs v < 1) by (apply Qabs_Qlt_condition; split; lra).
  assert (C : Qabs (inject_Z (truncate v)) < 1) by lra.
  apply Qabs_Qlt_condition in C. destruct C as [C1 C2].
  assert (D1 : inject_Z (-1) < inject_Z (truncate v))
    by (change (inject_Z (-1)) with (-1 # 1); lra).
  assert (D2 : inject_Z (truncate v) < inject_Z 1)
    by (change (inject_Z 1) with 1; lra).
  rewrite <- Zlt_Qlt in D1, D2. lia.
Qed.

(** X20: with a viewport whose corners are in order, [screen_to_map] sends
    every screen position, inside the window or not, to a point of the
    viewport's rectangle, the window's corners to the viewport's corners, and
    positions further right or up to points not further left or down.  The
    rounding is toward zero: the cell is no further from zero than the point,
    less than 1 away from it, and every point strictly between -1 and 1 goes
    to cell 0. *)
Theorem screen_to_map_within (g : GUI) (x y : Q) :
  vmath.x (Viewport.bottom_left (viewport g)) <= vmath.x (Viewport.top_right (viewport g)) ->
  vmath.y (Viewport.bottom_left (viewport g)) <= vmath.y (Viewport.top_right (viewport g)) ->
  let mx := fst (screen_to_map_exact g x y) in
  let my := snd (screen_to_map_exact g x y) in
  (vmath.x (Viewport.bottom_left (viewport g)) <= mx /\
   mx <= vmath.x (Viewport.top_right (viewport g)) /\
   vmath.y (Viewport.bottom_left (viewport g)) <= my /\
   my <= vmath.y (Viewport.top_right (viewport g))) /\
  screen_to_map_exact g 0 0
  = (vmath.x (Viewport.bottom_left (viewport g)), vmath.y (Viewport.bottom_left (viewport g))) /\
  screen_to_map_exact g SCREEN_WIDTH SCREEN_HEIGHT
  = (vmath.x (Viewport.top_right (viewport g)), vmath.y (Viewport.top_right (viewport g))) /\
  (forall x' y', x <= x' -> y <= y' ->
     mx <= fst (screen_to_map_exact g x' y') /\ my <= snd (screen_to_map_exact g x' y')) /\
  (Qabs (inject_Z (fst (screen_to_map g x y))) <= Qabs mx /\
   Qabs (mx - inject_Z (fst (screen_to_map g x y))) < 1 /\
   Qabs (inject_Z (snd (screen_to_map g x y))) <= Qabs my /\
   Qabs (my - inject_Z (snd (screen_to_map g x y))) < 1) /\
  (-1 < mx -> mx < 1 -> fst (screen_to_map g x y) = 0%Z).
Proof.
  intros HX HY. cbv zeta.
  assert (W : 0 < SCREEN_WIDTH) by reflexivity.
  assert (H : 0 < SCREEN_HEIGHT) by reflexivity.
  unfold screen_to_map, screen_to_map_exact. cbn [fst snd].
  split; [|split; [|split; [|split; [|split]]]].
  - destruct (interp_between x 0 SCREEN_WIDTH _ _ W HX).
    destruct (interp_between y 0 SCREEN_HEIGHT _ _ H HY). repeat split; assumption.
  - destruct (interp_ends 0 SCREEN_WIDTH (vmath.x (Viewport.bottom_left (viewport g)))
                          (vmath.x (Viewport.top_right (viewport g))) W) as [-> _].
    destruct (interp_ends 0 SCREEN_HEIGHT (vmath.y (Viewport.bottom_left (viewport g)))
                          (vmath.y (Viewport.top_right (viewport g))) H) as [-> _].
    reflexivity.
  - destruct (interp_ends 0 SCREEN_WIDTH (vmath.x (Viewport.bottom_left (viewport g)))
                          (vmath.x (Viewport.top_right (viewport g))) W) as [_ ->].
    destruct (interp_ends 0 SCREEN_HEIGHT (vmath.y (Viewport.bottom_left (viewport g)))
                          (vmath.y (Viewport.top_right (viewport g))) H) as [_ ->].
    reflexivity.
  - intros x' y' Lx Ly. split; apply interp_monotone; assumption.
  - split; [apply truncate_toward_zero|]. split; [apply truncate_toward_zero|].
    split; apply truncate_toward_zero.
  - apply truncate_small.
Qed.

Lemma screen_to_map_within_witness :
  let g := GUI_setup (3%Z, 3%Z) [] in
  let mx := fst (screen_to_map_exact g 640 480) in
  let my := snd (screen_to_map_exact g 640 480) in
  (vmath.x (Viewport.bottom_left (viewport g)) <= mx /\
   mx <= vmath.x (Viewport.top_right (viewport g)) /\
   vmath.y (Viewport.bottom_left (viewport g)) <= my /\
   my <= vmath.y (Viewport.top_right (viewport g))) /\
  screen_to_map_exact g 0 0
  = (vmath.x (Viewport.bottom_left (viewport g)), vmath.y (Viewport.bottom_left (viewport g))) /\
  screen_to_map_exact g SCREEN_WIDTH SCREEN_HEIGHT
  = (vmath.x (Viewport.top_right (viewport g)), vmath.y (Viewport.top_right (viewport g))) /\
  (forall x' y', 640 <= x' -> 480 <= y' ->
     mx <= fst (screen_to_map_exact g x' y') /\ my <= snd (screen_to_map_exact g x' y')) /\
  (Qabs (inject_Z (fst (screen_to_map g 640 480))) <= Qabs mx /\
   Qabs (mx - inject_Z (fst (screen_to_map g 640 480))) < 1 /\
   Qabs (inject_Z (snd (screen_to_map g 640 480))) <= Qabs my /\
   Qabs (my - inject_Z (snd (screen_to_map g 640 480))) < 1) /\
  (-1 < mx -> mx < 1 -> fst (screen_to_map g 640 480) = 0%Z).
Proof.
  apply (screen_to_map_within (GUI_setup (3%Z, 3%Z) []) 640 480).
  - unfold Qle. cbn. lia.
  - unfold Qle. cbn. lia.
Defined.

(** ** Editing walls *)

Lemma list_set_some {T} (i : nat) (v : T) (l : list T) :
  (i < List.length l)%nat -> exists l', list_set i v l = Some l'.
Proof.
  revert i. induction l as [|b rest IH]; intros i H; cbn in H; [lia|].
  destruct i as [|j]; cbn.
  - eexists. reflexivity.
  - destruct (IH j ltac:(lia)) as [r ->]. eexists. reflexivity.
Qed.

Lemma list_set_none {T} (i : nat) (v : T) (l : list T) :
  (List.length l <= i)%nat -> list_set i v l = None.
Proof.
  revert i. induction l as [|b rest IH]; intros i H.
  - destruct i; reflexivity.
  - destruct i as [|j]; cbn in *; [lia|]. rewrite IH by lia. reflexivity.
Qed.

Lemma list_set_spec {T} (i : nat) (v : T) (l l' : list T) :
  list_set i v l = Some l' ->
  List.length l' = List.length l /\
  (forall j, nth_error l' j = if Nat.eqb j i then Some v else nth_error l j) /\
  (forall P : T -> Prop, Forall P l -> P v -> Forall P l').
Proof.
  revert i l'. induction l as [|b rest IH]; intros i l' H.
  - destruct i; discriminate.
  - destruct i as [|k]; cbn in H.
    + injection H as <-. split; [reflexivity|]. split.
      * intros [|j]; reflexivity.
      * intros P F Pv. inversion F; subst. constructor; assumption.
    + destruct (list_set k v rest) as [r|] eqn:E; [|discriminate]. injection H as <-.
      destruct (IH k r E) as (L & N & F). split; [cbn; rewrite L; reflexivity|]. split.
      * intros [|j]; [reflexivity|]. cbn. apply N.
      * intros P Fl Pv. inversion Fl; subst. constructor; [assumption | apply F; assumption].
Qed.

Lemma set_wall_spec (size : Z * Z) (grid : list (list bool)) (cx cy : Z) :
  grid_shape size grid ->
  (0 <= cx < fst size)%Z -> (0 <= cy < snd size)%Z ->
  exists grid',
    set_wall cx cy grid = Some grid' /\
    grid_shape size grid' /\
    forall i j, wall_at grid' i j
                = wall_at grid i j || (Z.eqb (Z.of_nat i) cx && Z.eqb (Z.of_nat j) cy).
Proof.
  intros [L F] Hx Hy. unfold set_wall.
  assert (Nx : (Z.to_nat cx < List.length grid)%nat) by lia.
  destruct (nth_error grid (Z.to_nat cx)) as [column|] eqn:E;
    [|apply nth_error_None in E; lia].
  assert (Lc : List.length column = Z.to_nat (snd size)).
  { rewrite Forall_forall in F. apply F. exact (nth_error_In _ _ E). }
  destruct (list_set_some (Z.to_nat cy) true column ltac:(lia)) as [column' Ec].
  rewrite Ec.
  destruct (list_set_some (Z.to_nat cx) column' grid Nx) as [grid' Eg].
  rewrite Eg. exists grid'. split; [reflexivity|].
  destruct (list_set_spec _ _ _ _ Ec) as (Lc' & Nc & _).
  destruct (list_set_spec _ _ _ _ Eg) as (Lg & Ng & Fg).
  split.
  - split; [congruence|]. apply Fg; [exact F | congruence].
  - intros i j. unfold wall_at. rewrite Ng.
    destruct (Nat.eqb i (Z.to_nat cx)) eqn:Ei.
    + apply Nat.eqb_eq in Ei. subst i. rewrite E.
      assert (X : Z.eqb (Z.of_nat (Z.to_nat cx)) cx = true) by (apply Z.eqb_eq; lia).
      rewrite X. cbn [andb].
      assert (Nj : nth j column' false
                   = if Nat.eqb j (Z.to_nat cy) then true else nth j column false).
      { assert (G := Nc j). destruct (Nat.eqb j (Z.to_nat cy)).
        - apply nth_error_nth. exact G.
        - rewrite <- !nth_default_eq. unfold nth_default. rewrite G. reflexivity. }
      rewrite Nj. destruct (Nat.eqb j (Z.to_nat cy)) eqn:Ej.
      * symmetry. apply orb_true_iff. right. apply Z.eqb_eq. apply Nat.eqb_eq in Ej. lia.
      * apply Nat.eqb_neq in Ej.
        assert (Y : Z.eqb (Z.of_nat j) cy = false) by (apply Z.eqb_neq; lia).
        rewrite Y, orb_false_r. reflexivity.
    + apply Nat.eqb_neq in Ei.
      assert (X : Z.eqb (Z.of_nat i) cx = false) by (apply Z.eqb_neq; lia).
      rewrite X. cbn [andb]. rewrite orb_false_r. reflexivity.
Qed.

(** X21: on a grid that has its full shape, [on_mouse_press] never raises;
    it leaves the viewport, the editing flag and the shape of the grid as
    they are; and afterwards a cell is a wall exactly if it was a wall before
    or if editing is on, the button is the left one and the cell is the one
    [screen_to_map] gives for the click, within the map's size.  So no click
    removes a wall, and a click outside the map changes nothing. *)
Theorem on_mouse_press_edits (x y : Q) (button : MouseButton) (g : GUI) :
  grid_shape (map_size g) (walls g) ->
  let cx := fst (screen_to_map g x y) in
  let cy := snd (screen_to_map g x y) in
  let hit := is_editing g
             && match button with MOUSE_BUTTON_LEFT => true | _ => false end
             && ((0 <=? cx)%Z && (0 <=? cy)%Z && (cx <? fst (map_size g))%Z
                 && (cy <? snd (map_size g))%Z) in
  exists g',
    on_mouse_press x y button g = Some g' /\
    viewport g' = viewport g /\ is_editing g' = is_editing g /\ map_size g' = map_size g /\
    grid_shape (map_size g') (walls g') /\
    forall i j, wall_at (walls g') i j
                = wall_at (walls g) i j
                  || (hit && Z.eqb (Z.of_nat i) cx && Z.eqb (Z.of_nat j) cy).
Proof.
  intros G. cbv zeta. unfold on_mouse_press.
  destruct (screen_to_map g x y) as [cx cy]. cbn [fst snd].
  destruct (is_editing g) eqn:Ed; cbn [andb].
  - destruct button; cbn [andb];
      try (exists g; repeat split; try assumption; try apply G;
           intros; rewrite orb_false_r; reflexivity).
    destruct ((0 <=? cx)%Z && (0 <=? cy)%Z && (cx <? fst (map_size g))%Z
              && (cy <? snd (map_size g))%Z) eqn:R.
    + rewrite !andb_true_iff in R. destruct R as [[[R1 R2] R3] R4].
      apply Z.leb_le in R1, R2. apply Z.ltb_lt in R3, R4.
      destruct (set_wall_spec (map_size g) (walls g) cx cy G ltac:(lia) ltac:(lia))
        as (grid' & E & S & W).
      rewrite E. eexists. split; [reflexivity|]. cbn [viewport is_editing map_size walls].
      repeat split; try assumption; apply S.
    + exists g. repeat split; try assumption; try apply G.
      intros. rewrite orb_false_r. reflexivity.
  - exists g. repeat split; try assumption; try apply G.
    intros. rewrite orb_false_r. reflexivity.
Qed.

Lemma on_mouse_press_edits_witness :
  let g := mkGUI (Viewport.init 0 4 0 3) true (2%Z, 2%Z)
                 [[false; false]; [false; false]] in
  let cx := fst (screen_to_map g 400 400) in
  let cy := snd (screen_to_map g 400 400) in
  let hit := is_editing g
             && match MOUSE_BUTTON_LEFT with MOUSE_BUTTON_LEFT => true | _ => false end
             && ((0 <=? cx)%Z && (0 <=? cy)%Z && (cx <? fst (map_size g))%Z
                 && (cy <? snd (map_size g))%Z) in
  exists g',
    on_mouse_press 400 400 MOUSE_BUTTON_LEFT g = Some g' /\
    viewport g' = viewport g /\ is_editing g' = is_editing g /\ map_size g' = map_size g /\
    grid_shape (map_size g') (walls g') /\
    forall i j, wall_at (walls g') i j
                = wall_at (walls g) i j
                  || (hit && Z.eqb (Z.of_nat i) cx && Z.eqb (Z.of_nat j) cy).
Proof.
  apply (on_mouse_press_edits 400 400 MOUSE_BUTTON_LEFT
           (mkGUI (Viewport.init 0 4 0 3) true (2%Z, 2%Z) [[false; false]; [false; false]])).
  split; [reflexivity | repeat constructor].
Defined.

(** ** The tile buffer *)

(** X22: [build_grid] writes the six vertices of tile [(x, y)] at
    [(x * size[0] + y) * 6].  When the map is no wider than high, every tile
    lies inside the buffer of [size[0] * size[1] * 6] vertices; when it is no
    higher than wide, no two tiles share an index; so a square map fills the
    buffer tile by tile.  A map higher than wide (and at least 2 wide) has two
    tiles written to one place, and a map wider than high has its last tile
    reach past the end of the buffer. *)
Theorem tile_index_layout (s0 s1 : Z) :
  ((s0 <= s1)%Z ->
   forall x y : Z, (0 <= x < s0)%Z -> (0 <= y < s1)%Z ->
     (0 <= tile_index (s0, s1) x y)%Z /\
     (tile_index (s0, s1) x y + 6 <= n_vertices (s0, s1))%Z) /\
  ((s1 <= s0)%Z ->
   forall x y x' y' : Z,
     (0 <= x < s0)%Z -> (0 <= y < s1)%Z -> (0 <= x' < s0)%Z -> (0 <= y' < s1)%Z ->
     tile_index (s0, s1) x y = tile_index (s0, s1) x' y' -> x = x' /\ y = y') /\
  ((2 <= s0)%Z -> (s0 < s1)%Z -> tile_index (s0, s1) 0 s0 = tile_index (s0, s1) 1 0) /\
  ((1 <= s1)%Z -> (s1 < s0)%Z ->
   (n_vertices (s0, s1) < tile_index (s0, s1) (s0 - 1) (s1 - 1) + 6)%Z).
Proof.
  unfold tile_index, n_vertices. cbn [fst snd].
  split; [|split; [|split]].
  - intros L x y Hx Hy. split; nia.
  - intros L x y x' y' Hx Hy Hx' Hy' E.
    assert (X : x = x') by nia. subst x'. split; [reflexivity | lia].
  - intros. lia.
  - intros. nia.
Qed.

(** * More on the corner snap *)

Lemma sqrt_scale_pos : (0 < sqrt_scale)%Z.
Proof. reflexivity. Qed.

Lemma Qsqrt_nonneg (q : Q) : 0 <= Qsqrt q.
Proof.
  unfold Qsqrt, Qle. cbn [Qnum Qden]. rewrite Z.mul_0_l, Z.mul_1_r. apply Z.sqrt_nonneg.
Qed.

Lemma Qsqrt_pos (q : Q) : 0 < q -> 0 < Qsqrt q.
Proof.
  destruct q as [n d]. unfold Qsqrt, Qlt. cbn [Qnum Qden].
  rewrite !Z.mul_0_l, !Z.mul_1_r. intro H.
  apply Z.sqrt_pos. assert (S := sqrt_scale_pos). nia.
Qed.

(** [Qsqrt] rounds down. *)
Lemma Qsqrt_sqr_le (q : Q) : 0 <= q -> Qsqrt q * Qsqrt q <= q.
Proof.
  destruct q as [n d]. unfold Qsqrt, Qle, Qmult. cbn [Qnum Qden].
  rewrite Z.mul_0_l, Z.mul_1_r. intro H.
  assert (S := sqrt_scale_pos).
  rewrite !Pos2Z.inj_mul, Z2Pos.id by exact S.
  assert (D : (0 < Z.pos d)%Z) by lia.
  assert (R : (0 <= n * Z.pos d * (sqrt_scale * sqrt_scale))%Z) by nia.
  destruct (Z.sqrt_spec _ R) as [L _].
  replace (n * (Z.pos d * sqrt_scale * (Z.pos d * sqrt_scale)))%Z
    with (n * Z.pos d * (sqrt_scale * sqrt_scale) * Z.pos d)%Z by ring.
  apply Z.mul_le_mono_nonneg_r; [lia | exact L].
Qed.

(** X24: when a corner probe makes [circle_collision] return a point, that
    point lies on the ray from the centre of the wall cell through the
    agent, further from the centre than the agent is: the snap moves an agent
    away from the cell's centre, never toward it or sideways. *)
Theorem circle_collision_outward (m : Map) (agent : Agent) (width px py r : Q) (c : Vector2) :
  circle_collision m agent width px py r = inr (Some c) ->
  let center := vmath.mk (inject_Z (floor px) + 0.5) (inject_Z (floor py) + 0.5) in
  is_wall m (floor px) (floor py) = true /\
  exists k, 1 < k /\
    vmath.x c - vmath.x center == k * (vmath.x (location agent) - vmath.x center) /\
    vmath.y c - vmath.y center == k * (vmath.y (location agent) - vmath.y center).
Proof.
  unfold circle_collision. cbv zeta.
  destruct (is_wall m (floor px) (floor py)); [|discriminate].
  set (center := vmath.add (vmath.mk (inject_Z (floor px)) (inject_Z (floor py)))
                           (vmath.mk 0.5 0.5)).
  set (d := vmath.sub (location agent) center).
  destruct (vmath.length_lt d (r + width / 2)) eqn:L; [|discriminate].
  apply length_lt_spec in L. destruct L as [Rpos L].
  assert (S0 := length_squared_nonneg d).
  unfold vmath.as_length.
  destruct (Qeq_bool (vmath.length_squared d) 0) eqn:Z.
  - assert (N0 : Qeq_bool (r + width / 2) 0 = false).
    { destruct (Qeq_bool (r + width / 2) 0) eqn:X; [|reflexivity].
      apply Qeq_bool_iff in X. lra. }
    rewrite N0. discriminate.
  - assert (Spos : 0 < vmath.length_squared d).
    { destruct (Qlt_le_dec 0 (vmath.length_squared d)) as [H|H]; [exact H|].
      assert (E : vmath.length_squared d == 0) by lra.
      apply Qeq_bool_iff in E. congruence. }
    assert (Pos : 0 < vmath.length d) by (apply Qsqrt_pos; exact Spos).
    assert (Le : vmath.length d * vmath.length d <= vmath.length_squared d)
      by (apply Qsqrt_sqr_le; exact S0).
    assert (Lt : vmath.length d < r + width / 2).
    { destruct (Qlt_le_dec (vmath.length d) (r + width / 2)) as [H|H]; [exact H|]. nra. }
    intro H. injection H as <-. split; [reflexivity|].
    exists ((r + width / 2) / vmath.length d). split.
    + apply Qlt_shift_div_l; lra.
    + unfold d, center. cbn [vmath.x vmath.y vmath.add vmath.sub vmath.scale].
      split; ring.
Qed.

Lemma circle_collision_outward_witness :
  let agent := guard_at 1 (vmath.mk 0.3 1.5) 0.2 in
  let c := vmath.mk (-400000000000000000000000000000 # 4000000000000000000000000000000)
             (6000000000000000000000000000000 # 4000000000000000000000000000000) in
  let center := vmath.mk (inject_Z (floor 0.6) + 0.5) (inject_Z (floor 1.4) + 0.5) in
  is_wall map3 (floor 0.6) (floor 1.4) = true /\
  exists k, 1 < k /\
    vmath.x c - vmath.x center == k * (vmath.x (location agent) - vmath.x center) /\
    vmath.y c - vmath.y center == k * (vmath.y (location agent) - vmath.y center).
Proof.
  apply (circle_collision_outward map3 (guard_at 1 (vmath.mk 0.3 1.5) 0.2) 0.2 0.6 1.4 0.5
           (vmath.mk (-400000000000000000000000000000 # 4000000000000000000000000000000)
             (6000000000000000000000000000000 # 4000000000000000000000000000000))).
  vm_compute. reflexivity.
Defined.
